(** * tiny-ps4-shell: the read / split / dispatch / fork loop of [shell.c]

    A shallow embedding of [shell.c].  Every C function of the file is a Rocq
    function of the same name over an explicit [world]: the part of the
    process and of its environment that the code reads or writes (pending
    results of [read], [malloc], [sys_fork] and [sys_waitpid], the two output
    streams, the environment and the working directory).  A call yields an
    [outcome] together with the world it leaves behind. *)

From Stdlib Require Import ZArith Ascii String List Bool Lia.
From stdpp Require Import base option list strings gmap.

Local Open Scope string_scope.
Local Open Scope list_scope.

(** ** C data *)

(** [char] cells of a heap block; [None] is a cell that was never written
    ([malloc] and the tail of a [realloc] hand out indeterminate bytes). *)
Abbreviation cell := (option ascii).
Abbreviation block := (list (option ascii)).

Definition NUL : ascii := "000"%char.
Definition NL : ascii := "010"%char.
Definition nl : string := String NL EmptyString.

(** A [char*] into the line buffer, or [NULL]. *)
Inductive ptr := Null | Ptr (off : nat).

#[global] Instance ptr_eq_dec : EqDecision ptr.
Proof. solve_decision. Defined.

(** [int] is 32 bits wide and signed; overflow of [+] is undefined. *)
Definition INT_MAX : Z := 2147483647.

(** errno values used by the model (FreeBSD numbering). *)
Definition EINTR : Z := 4.
Definition ENOMEM : Z := 12.
Definition ERANGE : Z := 34.
Definition EAGAIN : Z := 35.

(** [<limits.h>] *)
Definition PATH_MAX : Z := 1024.

(** ** The world *)

(** What one [read(STDIN_FILENO, &c, 1)] does: the byte stored in [c] with
    return value 1, return value 0 at end of stream, or -1 with [errno]. *)
Inductive read_result :=
| RdByte (c : ascii)
| RdEof
| RdError (e : Z).

(** What [sys_fork] returns in the process that goes on running the code. *)
Inductive fork_result :=
| ForkChild
| ForkParent (pid : Z)
| ForkError (e : Z).

(** What one [sys_waitpid(pid, &status, WUNTRACED)] does: store a status,
    or fail and leave [status] as it was. *)
Inductive wait_result :=
| WaitStatus (status : Z)
| WaitError (e : Z).

(** [setvbuf] modes of [stdout]. *)
Inductive bufmode := IOFBF | IOLBF | IONBF.

(** - [w_stdin]: the results of the coming calls of [read]; once the list
      is used up every read reports the end of the stream;
    - [w_heap]: whether the coming calls of [malloc] and [realloc] succeed;
      once the list is used up they all do;
    - [w_fork]: the results of the coming calls of [sys_fork]; once the
      list is used up the call fails with EAGAIN;
    - [w_wait]: the results of the coming calls of [sys_waitpid]; once the
      list is used up the call never returns;
    - [w_cwd]: the directory [getcwd] can report, if any;
    - [w_globals]: process-wide variables defined outside [shell.c]. *)
Record world := World {
  w_stdin : list read_result;
  w_heap : list bool;
  w_fork : list fork_result;
  w_wait : list wait_result;
  w_errno : Z;
  w_stdout : string;
  w_stderr : string;
  w_bufmode : bufmode;
  w_env : gmap string string;
  w_cwd : option string;
  w_globals : gmap string Z
}.

Definition set_stdin (v : list read_result) (w : world) : world :=
  World v (w_heap w) (w_fork w) (w_wait w) (w_errno w) (w_stdout w)
        (w_stderr w) (w_bufmode w) (w_env w) (w_cwd w) (w_globals w).
Definition set_heap (v : list bool) (w : world) : world :=
  World (w_stdin w) v (w_fork w) (w_wait w) (w_errno w) (w_stdout w)
        (w_stderr w) (w_bufmode w) (w_env w) (w_cwd w) (w_globals w).
Definition set_fork (v : list fork_result) (w : world) : world :=
  World (w_stdin w) (w_heap w) v (w_wait w) (w_errno w) (w_stdout w)
        (w_stderr w) (w_bufmode w) (w_env w) (w_cwd w) (w_globals w).
Definition set_wait (v : list wait_result) (w : world) : world :=
  World (w_stdin w) (w_heap w) (w_fork w) v (w_errno w) (w_stdout w)
        (w_stderr w) (w_bufmode w) (w_env w) (w_cwd w) (w_globals w).
Definition set_errno (v : Z) (w : world) : world :=
  World (w_stdin w) (w_heap w) (w_fork w) (w_wait w) v (w_stdout w)
        (w_stderr w) (w_bufmode w) (w_env w) (w_cwd w) (w_globals w).
Definition set_stdout (v : string) (w : world) : world :=
  World (w_stdin w) (w_heap w) (w_fork w) (w_wait w) (w_errno w) v
        (w_stderr w) (w_bufmode w) (w_env w) (w_cwd w) (w_globals w).
Definition set_stderr (v : string) (w : world) : world :=
  World (w_stdin w) (w_heap w) (w_fork w) (w_wait w) (w_errno w)
        (w_stdout w) v (w_bufmode w) (w_env w) (w_cwd w) (w_globals w).
Definition set_bufmode (v : bufmode) (w : world) : world :=
  World (w_stdin w) (w_heap w) (w_fork w) (w_wait w) (w_errno w)
        (w_stdout w) (w_stderr w) v (w_env w) (w_cwd w) (w_globals w).
Definition set_env (v : gmap string string) (w : world) : world :=
  World (w_stdin w) (w_heap w) (w_fork w) (w_wait w) (w_errno w)
        (w_stdout w) (w_stderr w) (w_bufmode w) v (w_cwd w) (w_globals w).
Definition set_globals (v : gmap string Z) (w : world) : world :=
  World (w_stdin w) (w_heap w) (w_fork w) (w_wait w) (w_errno w)
        (w_stdout w) (w_stderr w) (w_bufmode w) (w_env w) (w_cwd w) v.

(** ** Outcomes *)

(** How a call ends in the process that executes it. *)
Inductive outcome (A : Type) : Type :=
| Ret (a : A)        (* the call returns a *)
| Exited (rc : Z)    (* the process ended inside the call: exit(rc) *)
| Hang               (* the call never returns *)
| Undef.             (* undefined behaviour: bad access or int overflow *)

Arguments Ret {A} a.
Arguments Exited {A} rc.
Arguments Hang {A}.
Arguments Undef {A}.

Definition M (A : Type) : Type := world -> outcome A * world.

Definition retM {A} (a : A) : M A := fun w => (Ret a, w).

Definition bindM {A B} (m : M A) (k : A -> M B) : M B :=
  fun w =>
    match m w with
    | (Ret a, w') => k a w'
    | (Exited rc, w') => (Exited rc, w')
    | (Hang, w') => (Hang, w')
    | (Undef, w') => (Undef, w')
    end.

Notation "x <- m ;; k" := (bindM m (fun x => k))
  (at level 100, m at next level, right associativity).
Notation "m ;;; k" := (bindM m (fun _ => k))
  (at level 100, right associativity).

(** [a + b] on [int]. *)
Definition int_add (a b : Z) : M Z :=
  fun w => if (a + b <=? INT_MAX)%Z then (Ret (a + b)%Z, w) else (Undef, w).

(** ** libc *)

(** [printf(...)] / [fprintf(stdout, ...)] with the formatted text [s]. *)
Definition printf (s : string) : M unit :=
  fun w => (Ret tt, set_stdout (w_stdout w +:+ s) w).

(** [fprintf(stderr, ...)] with the formatted text [s]. *)
Definition eprintf (s : string) : M unit :=
  fun w => (Ret tt, set_stderr (w_stderr w +:+ s) w).

Definition setvbuf (m : bufmode) : M unit :=
  fun w => (Ret tt, set_bufmode m w).

(** The allocator answers the next request: does it succeed?  A failure
    sets [errno]. *)
Definition heap_next (w : world) : bool * world :=
  match w_heap w with
  | [] => (true, w)
  | true :: h => (true, set_heap h w)
  | false :: h => (false, set_errno ENOMEM (set_heap h w))
  end.

(** [malloc] of [n] cells: a fresh block of indeterminate cells, or NULL. *)
Definition malloc {A} (n : Z) : M (option (list (option A))) :=
  fun w =>
    let (ok, w') := heap_next w in
    (Ret (if ok then Some (replicate (Z.to_nat n) None) else None), w').

(** [realloc] of a block to [n] cells: the old cells kept, the new ones
    indeterminate, or NULL with the old block untouched. *)
Definition realloc {A} (old : list (option A)) (n : Z)
  : M (option (list (option A))) :=
  fun w =>
    let (ok, w') := heap_next w in
    (Ret (if ok
          then Some (take (Z.to_nat n) old
                     ++ replicate (Z.to_nat n - length old) None)
          else None), w').

(** [b[i] = x]; a store outside the block is undefined. *)
Definition store {A} (b : list (option A)) (i : Z) (x : A)
  : M (list (option A)) :=
  fun w =>
    if ((0 <=? i)%Z && (i <? Z.of_nat (length b))%Z)%bool
    then (Ret (<[Z.to_nat i := Some x]> b), w)
    else (Undef, w).

(** [read(STDIN_FILENO, &c, 1)]: the return value and the byte stored. *)
Definition sys_read (inp : list read_result) (w : world)
  : Z * option ascii * world :=
  match inp with
  | [] => (0%Z, None, w)
  | RdByte c :: _ => (1%Z, Some c, w)
  | RdEof :: _ => (0%Z, None, w)
  | RdError e :: _ => ((-1)%Z, None, set_errno e w)
  end.

(** The string a [char*] points to: the cells up to the first NUL.  [None]
    when the scan leaves the block or meets an indeterminate cell. *)
Fixpoint c_str (b : block) : option (list ascii) :=
  match b with
  | Some c :: b' =>
      if Ascii.eqb c NUL then Some [] else cons c <$> c_str b'
  | _ => None
  end.

Definition str_at (b : block) (p : nat) : option (list ascii) :=
  c_str (drop p b).

(** [strcmp]: the difference of the first pair of bytes that differ. *)
Fixpoint strcmp (a b : list ascii) : Z :=
  match a, b with
  | [], [] => 0
  | [], y :: _ => (0 - Z.of_N (N_of_ascii y))%Z
  | x :: _, [] => Z.of_N (N_of_ascii x)
  | x :: a', y :: b' =>
      if Ascii.eqb x y then strcmp a' b'
      else (Z.of_N (N_of_ascii x) - Z.of_N (N_of_ascii y))%Z
  end.

(** [strchr(delim, c) != NULL] for a byte [c] other than NUL. *)
Definition in_delim (delim : list ascii) (c : ascii) : bool :=
  existsb (Ascii.eqb c) delim.

(** [strspn]: how many leading bytes are delimiters. *)
Fixpoint strspn (delim : list ascii) (b : block) : option nat :=
  match b with
  | Some c :: b' =>
      if in_delim delim c then S <$> strspn delim b' else Some 0
  | _ => None
  end.

(** [strcspn]: how many leading bytes are neither a delimiter nor NUL. *)
Fixpoint strcspn (delim : list ascii) (b : block) : option nat :=
  match b with
  | Some c :: b' =>
      if (Ascii.eqb c NUL || in_delim delim c)%bool then Some 0
      else S <$> strcspn delim b'
  | _ => None
  end.

(** [strtok(s, delim)] on the block [buf]; [last] is the function's static
    pointer to where the next scan resumes.  The result is the token (or
    NULL), the block with the token's delimiter overwritten by NUL, and the
    new resume point; [None] when a scan leaves the block. *)
Definition strtok (s : ptr) (delim : list ascii) (buf : block) (last : nat)
  : option (ptr * block * nat) :=
  let start := match s with Ptr p => p | Null => last end in
  n ← strspn delim (drop start buf);
  let tok := start + n in
  match buf !! tok with
  | Some (Some c) =>
      if Ascii.eqb c NUL then Some (Null, buf, tok)
      else
        m ← strcspn delim (drop tok buf);
        let e := tok + m in
        match buf !! e with
        | Some (Some c') =>
            if Ascii.eqb c' NUL then Some (Ptr tok, buf, e)
            else Some (Ptr tok, <[e := Some NUL]> buf, S e)
        | _ => None
        end
  | _ => None
  end.

Definition strtok_m (s : ptr) (delim : list ascii) (buf : block) (last : nat)
  : M (ptr * block * nat) :=
  fun w => match strtok s delim buf last with
           | Some r => (Ret r, w)
           | None => (Undef, w)
           end.

Definition getenv (k : string) : M (option string) :=
  fun w => (Ret (w_env w !! k), w).

(** [setenv(k, v, 0)]: an existing value is kept. *)
Definition setenv_keep (k v : string) : M unit :=
  fun w => (Ret tt, match w_env w !! k with
                    | Some _ => w
                    | None => set_env (<[k := v]> (w_env w)) w
                    end).

(** [getcwd(buf, size)]: the directory, when there is one to report and it
    fits with its NUL into [size] bytes. *)
Definition getcwd (size : Z) : M (option string) :=
  fun w => match w_cwd w with
           | Some d =>
               if (Z.of_nat (String.length d) + 1 <=? size)%Z
               then (Ret (Some d), w)
               else (Ret None, set_errno ERANGE w)
           | None => (Ret None, w)
           end.

Definition exit {A} (rc : Z) : M A := fun w => (Exited rc, w).

(** ** <sys/wait.h> *)

(** The status macros as FreeBSD's header defines them. *)

Definition W_STATUS (x : Z) : Z := Z.land x 127.
Definition W_STOPPED : Z := 127.
Definition WIFSTOPPED (x : Z) : bool := (W_STATUS x =? W_STOPPED)%Z.
Definition WIFEXITED (x : Z) : bool := (W_STATUS x =? 0)%Z.
Definition WIFSIGNALED (x : Z) : bool :=
  (negb (W_STATUS x =? W_STOPPED)%Z && negb (W_STATUS x =? 0)%Z)%bool.
Definition WEXITSTATUS (x : Z) : Z := Z.shiftr x 8.
Definition WTERMSIG (x : Z) : Z := W_STATUS x.

(** What became of a child, and the status word the kernel reports for it
    ([W_EXITCODE] and [W_STOPCODE]). *)
Inductive child_state :=
| ChildExited (code : Z)
| ChildSignaled (sig : Z) (core : bool)
| ChildStopped (sig : Z).

Definition wstatus (c : child_state) : Z :=
  match c with
  | ChildExited code => Z.shiftl (Z.land code 255) 8
  | ChildSignaled sig core => Z.lor sig (if core then 128 else 0)
  | ChildStopped sig => Z.lor (Z.shiftl sig 8) W_STOPPED
  end.

Definition sys_fork : M Z :=
  fun w => match w_fork w with
           | [] => (Ret (-1)%Z, set_errno EAGAIN w)
           | ForkChild :: r => (Ret 0%Z, set_fork r w)
           | ForkParent pid :: r => (Ret pid, set_fork r w)
           | ForkError e :: r => (Ret (-1)%Z, set_errno e (set_fork r w))
           end.

(** ** The command table *)

Definition SHELL_LINE_BUFSIZE : Z := 1024.
Definition SHELL_TOK_BUFSIZE : Z := 128.
Definition SHELL_TOK_DELIM : list ascii :=
  [" "; "009"; "013"; "010"; "007"]%char.

(** The entry points the table refers to.  All but [main_help] are declared
    in [commands.h] and defined outside [shell.c]. *)
Module Entry.
Inductive entry_point :=
| main_cd | main_cp | main_dmesg | main_env | main_exit | main_help
| main_id | main_jailbreak | main_kill | main_ls | main_mkdir | main_mount
| main_pwd | main_rmdir | main_sleep | main_stat | main_uname.
End Entry.
Abbreviation entry_point := Entry.entry_point.

#[global] Instance entry_point_eq_dec : EqDecision entry_point.
Proof. solve_decision. Defined.

Record shell_command_t := Command {
  name : string;
  main : entry_point;
  fork : Z
}.

Definition commands : list shell_command_t := [
  Command "cd" Entry.main_cd 0;
  Command "cp" Entry.main_cp 1;
  Command "dmesg" Entry.main_dmesg 1;
  Command "env" Entry.main_env 0;
  Command "exit" Entry.main_exit 0;
  Command "help" Entry.main_help 1;
  Command "id" Entry.main_id 1;
  Command "jailbreak" Entry.main_jailbreak 0;
  Command "kill" Entry.main_kill 1;
  Command "ls" Entry.main_ls 1;
  Command "mkdir" Entry.main_mkdir 1;
  Command "mount" Entry.main_mount 1;
  Command "pwd" Entry.main_pwd 1;
  Command "rmdir" Entry.main_rmdir 1;
  Command "sleep" Entry.main_sleep 1;
  Command "stat" Entry.main_stat 1;
  Command "uname" Entry.main_uname 1
].

(** The type of a command's behaviour: [main(argc, argv)] with the
    argument strings read off [argv]. *)
Definition main_t : Type := Z -> list string -> M Z.

(** ** Parameters for the worked examples *)

(** Message texts of [strerror]. *)
Definition strerror_text (e : Z) : string :=
  if (e =? ENOMEM)%Z then "Cannot allocate memory"
  else if (e =? EAGAIN)%Z then "Resource temporarily unavailable"
  else "Unknown error".

(** Modelled from the spec: [main_exit], the entry point of the builtin
    "exit", which is defined outside [shell.c].  The spec counts it among
    the builtins "terminating the shell itself", names it as what is
    "escalated to terminate the shell process itself", and describes it as
    a handler "that changes process-wide running state": it ends the
    shell's process.  [shell.c] keeps [running] as a local of [shell_loop]
    that no handler can reach, so ending the process is the one state
    change of the handler that the loop can observe.  The spec names no
    exit status; 0 is taken here. *)
Definition spec_main_exit : main_t :=
  fun argc argv => exit 0%Z.

(** The commands outside [shell.c] as the examples run them: "exit" as the
    spec has it, every other one returning 0 with no effect. *)
Definition example_main (m : entry_point) : main_t :=
  match m with
  | Entry.main_exit => spec_main_exit
  | _ => fun argc argv => retM 0%Z
  end.

(** A world at program start: the given input and allocator answers, no
    environment, working directory "/". *)
Definition start_world (inp : list read_result) (heap : list bool)
    (forks : list fork_result) (waits : list wait_result) : world :=
  World inp heap forks waits 0 "" "" IOLBF ∅ (Some "/") ∅.

(** The bytes of a text as successful reads. *)
Definition typed (s : string) : list read_result :=
  RdByte <$> list_ascii_of_string s.

(** The build stamps of the examples. *)
Definition example_date : string := "Jan  1 2021".
Definition example_time : string := "00:00:00".

(** What [shell_loop] prints before its first prompt in the examples. *)
Definition example_banner : string :=
  nl +:+ "Welcome to a tiny PS4 shell, compiled Jan  1 2021 at 00:00:00"
  +:+ nl +:+ "Type 'help' for a list of commands" +:+ nl +:+ nl.

(** A line of 2500 characters: longer than two growth steps of the line
    buffer. *)
Definition long_line : list ascii := replicate 2500 "a"%char.

(** The line [ls   -a<TAB>/] of the spec's tokenizer example. *)
Definition ls_line : list ascii :=
  list_ascii_of_string "ls   -a" ++ ["009"%char; "/"%char].

(** A line of 130 one-letter words: more tokens than the token array
    holds at first. *)
Definition many_words : list ascii :=
  concat (replicate 130 ["x"%char; " "%char]).

(** What a call left on standard output and on standard error. *)
Definition streams {A} (r : outcome A * world) : string * string :=
  (w_stdout (snd r), w_stderr (snd r)).

(** A line buffer holding the text [s]. *)
Definition line_of (s : list ascii) : block := (Some <$> s) ++ [Some NUL].

(** The line block of [cd /tmp] after it was split: both words end in
    NUL. *)
Definition cd_line : block :=
  (Some <$> list_ascii_of_string "cd") ++ Some NUL
  :: (Some <$> list_ascii_of_string "/tmp") ++ [Some NUL].

(** The table entries of "cd" (inline), "help" and "ls" (forked). *)
Definition cd_entry : shell_command_t := Command "cd" Entry.main_cd 0.
Definition help_entry : shell_command_t := Command "help" Entry.main_help 1.
Definition ls_entry : shell_command_t := Command "ls" Entry.main_ls 1.

(** ** shell.c *)

Section Shell.

(** [strerror] of libc, the commands defined outside [shell.c], and the
    build stamps [__DATE__] and [__TIME__]. *)
Variable strerror : Z -> string.
Variable extern_main : entry_point -> main_t.
Variables DATE TIME : string.

Definition strerror_errno : M string :=
  fun w => (Ret (strerror (w_errno w)), w).

(** The rest of a round of the read loop after a byte other than the
    newline was read: [buffer[position++] = c], and the growth of the block
    when it is full.  The value is the new [bufsize], [position] and
    [buffer], or nothing when [realloc] failed. *)
Definition readline_store (c : ascii) (bufsize position : Z)
    (buffer : block) : M (option (Z * Z * block)) :=
  buffer <- store buffer position c ;;
  position <- int_add position 1 ;;
  if (position >=? bufsize)%Z then
    bufsize <- int_add bufsize SHELL_LINE_BUFSIZE ;;
    grown <- realloc buffer bufsize ;;
    match grown with
    | None =>
        e <- strerror_errno ;;
        eprintf ("realloc: " +:+ e +:+ nl) ;;;
        retM None
    | Some buffer => retM (Some (bufsize, position, buffer))
    end
  else retM (Some (bufsize, position, buffer)).

(** Read a line from stdin.  The loop runs once per [read]; [inp] is what
    the coming reads deliver. *)
Fixpoint shell_readline_loop (inp : list read_result)
    (bufsize position : Z) (buffer : block) (w : world) {struct inp}
  : outcome (option block) * world :=
  match inp with
  | [] =>
      (* end of stream: read returns 0, so len <= 0 *)
      (Ret None, set_stdin [] w)
  | r :: rest =>
      let '(len, c, w) := sys_read inp w in
      if ((len =? -1)%Z && (w_errno w =? EINTR)%Z)%bool then
        shell_readline_loop rest bufsize position buffer w
      else if (len <=? 0)%Z then
        (Ret None, set_stdin rest w)
      else
        match c with
        | None => (Undef, set_stdin rest w)
        | Some c =>
            if Ascii.eqb c NL then
              (buffer <- store buffer position NUL ;;
               retM (Some buffer)) (set_stdin rest w)
            else
              match readline_store c bufsize position buffer w with
              | (Ret (Some (bufsize, position, buffer)), w) =>
                  shell_readline_loop rest bufsize position buffer w
              | (Ret None, w) => (Ret None, set_stdin rest w)
              | (Exited rc, w) => (Exited rc, set_stdin rest w)
              | (Hang, w) => (Hang, set_stdin rest w)
              | (Undef, w) => (Undef, set_stdin rest w)
              end
        end
  end.

Definition shell_readline : M (option block) :=
  let bufsize := SHELL_LINE_BUFSIZE in
  let position := 0%Z in
  buffer <- malloc bufsize ;;
  match buffer with
  | None =>
      e <- strerror_errno ;;
      eprintf ("malloc: " +:+ e +:+ nl) ;;;
      retM None
  | Some buffer =>
      fun w => shell_readline_loop (w_stdin w) bufsize position buffer w
  end.

(** The growth step of a round of [shell_splitline]: the token array
    gains SHELL_TOK_BUFSIZE slots when it is full.  The value is the new
    [bufsize] and [tokens], or nothing when [realloc] failed. *)
Definition splitline_grow (bufsize position : Z) (tokens : list (option ptr))
  : M (option (Z * list (option ptr))) :=
  if (position >=? bufsize)%Z then
    bufsize <- int_add bufsize SHELL_TOK_BUFSIZE ;;
    grown <- realloc tokens bufsize ;;
    match grown with
    | None =>
        e <- strerror_errno ;;
        printf ("realloc: " +:+ e +:+ nl) ;;;
        retM None
    | Some tokens => retM (Some (bufsize, tokens))
    end
  else retM (Some (bufsize, tokens)).

(** Split a string into an array of substrings separated by
    SHELL_TOK_DELIM.  One round of the loop per token; [fuel] bounds the
    rounds.  The value is the token array (or NULL) and the line block as
    the calls of [strtok] left it. *)
Fixpoint shell_splitline_loop (fuel : nat) (token : ptr)
    (line : block) (last : nat) (bufsize position : Z)
    (tokens : list (option ptr)) {struct fuel}
  : M (option (list (option ptr)) * block) :=
  match token with
  | Null =>
      tokens <- store tokens position Null ;;
      retM (Some tokens, line)
  | Ptr _ =>
      match fuel with
      | O => fun w => (Hang, w)
      | S fuel =>
          tokens <- store tokens position token ;;
          position <- int_add position 1 ;;
          grown <- splitline_grow bufsize position tokens ;;
          match grown with
          | None => retM (None, line)
          | Some (bufsize, tokens) =>
              r <- strtok_m Null SHELL_TOK_DELIM line last ;;
              let '(token, line, last) := r in
              shell_splitline_loop fuel token line last bufsize position
                                   tokens
          end
      end
  end.

Definition shell_splitline (line : block)
  : M (option (list (option ptr)) * block) :=
  let bufsize := SHELL_TOK_BUFSIZE in
  let position := 0%Z in
  tokens <- malloc bufsize ;;
  match tokens with
  | None =>
      e <- strerror_errno ;;
      printf ("malloc: " +:+ e +:+ nl) ;;;
      retM (None, line)
  | Some tokens =>
      r <- strtok_m (Ptr 0) SHELL_TOK_DELIM line 0 ;;
      let '(token, line', last) := r in
      shell_splitline_loop (length line) token line' last bufsize position
                           tokens
  end.

(** Print the shell prompt to stdout. *)
Definition shell_prompt : M unit :=
  cwd <- getenv "PWD" ;;
  cwd <- match cwd with
         | None => getcwd PATH_MAX
         | Some _ => retM cwd
         end ;;
  printf (match cwd with Some d => d | None => "(null)" end +:+ "$ ").

(** [do { sys_waitpid(pid, &status, WUNTRACED); }
    while (!WIFEXITED(status) && !WIFSIGNALED(status));
    return WEXITSTATUS(status);]  One round per [sys_waitpid]. *)
Fixpoint shell_fork_wait (evs : list wait_result) (status : Z) (w : world)
    {struct evs} : outcome Z * world :=
  match evs with
  | [] => (Hang, set_wait [] w)
  | ev :: rest =>
      let '(status, w) := match ev with
                          | WaitStatus s => (s, w)
                          | WaitError e => (status, set_errno e w)
                          end in
      if (negb (WIFEXITED status) && negb (WIFSIGNALED status))%bool
      then shell_fork_wait rest status w
      else (Ret (WEXITSTATUS status), set_wait rest w)
  end.

(** Fork the execution of a command. *)
Definition shell_fork (main : main_t) (argc : Z) (argv : list string)
  : M Z :=
  pid <- sys_fork ;;
  if (pid =? 0)%Z then
    rc <- main argc argv ;;
    exit rc
  else if (pid <? 0)%Z then
    e <- strerror_errno ;;
    eprintf ("fork: " +:+ e +:+ nl) ;;;
    retM (-1)%Z
  else
    let status := 0%Z in
    fun w => shell_fork_wait (w_wait w) status w.

(** Display a list of registered commands. *)
Definition main_help : main_t :=
  fun argc argv =>
    printf ("Available commands are:" +:+ nl) ;;;
    (fix each (cmds : list shell_command_t) : M unit :=
       match cmds with
       | [] => retM tt
       | cmd :: cmds => printf ("  " +:+ name cmd +:+ nl) ;;; each cmds
       end) commands ;;;
    retM 0%Z.

(** The function an entry of the table points to. *)
Definition call (m : entry_point) : main_t :=
  match m with
  | Entry.main_help => main_help
  | _ => extern_main m
  end.

(** [while(argv[argc]) argc++;] *)
Fixpoint count_args (argv : list (option ptr)) (argc : Z) : M Z :=
  match argv with
  | Some (Ptr _) :: argv => argc <- int_add argc 1 ;; count_args argv argc
  | Some Null :: _ => retM argc
  | _ => fun w => (Undef, w)
  end.

(** The strings [argv[0]] .. [argv[argc-1]] as a command receives them. *)
Fixpoint arg_strings (line : block) (argv : list (option ptr))
  : option (list string) :=
  match argv with
  | Some (Ptr p) :: argv =>
      s ← str_at line p;
      ss ← arg_strings line argv;
      Some (string_of_list_ascii s :: ss)
  | Some Null :: _ => Some []
  | _ => None
  end.

(** [argv[0]] as a string. *)
Definition arg0 (line : block) (argv : list (option ptr)) : M (list ascii) :=
  fun w => match argv with
           | Some (Ptr p) :: _ =>
               match str_at line p with
               | Some s => (Ret s, w)
               | None => (Undef, w)
               end
           | _ => (Undef, w)
           end.

(** The [for] loop of [shell_execute] over the entries still to try. *)
Fixpoint shell_execute_scan (cmds : list shell_command_t)
    (line : block) (argc : Z) (argv : list (option ptr)) : M Z :=
  match cmds with
  | [] =>
      a0 <- arg0 line argv ;;
      printf (string_of_list_ascii a0 +:+ ": command not found" +:+ nl) ;;;
      retM (-1)%Z
  | cmd :: cmds =>
      a0 <- arg0 line argv ;;
      if negb (strcmp a0 (list_ascii_of_string (name cmd)) =? 0)%Z then
        shell_execute_scan cmds line argc argv
      else
        fun w =>
          match arg_strings line argv with
          | None => (Undef, w)
          | Some args =>
              if negb (fork cmd =? 0)%Z
              then shell_fork (call (main cmd)) argc args w
              else call (main cmd) argc args w
          end
  end.

(** Execute a shell command, over the table [cmds]. *)
Definition shell_execute_in (cmds : list shell_command_t)
    (line : block) (argv : list (option ptr)) : M Z :=
  argc <- count_args argv 0 ;;
  if (argc =? 0)%Z then retM (-1)%Z
  else shell_execute_scan cmds line argc argv.

Definition shell_execute : block -> list (option ptr) -> M Z :=
  shell_execute_in commands.

(** One round of the [while(running)] loop; the value is [exit_code].
    [fflush(NULL)] and the two [free]s at the end of the round change
    nothing that the world records. *)
Definition shell_loop_body : M Z :=
  let exit_code := 0%Z in
  shell_prompt ;;;
  setvbuf IONBF ;;;
  line <- shell_readline ;;
  setvbuf IOLBF ;;;
  r <- match line with
       | Some line => shell_splitline line
       | None => retM (None, [])
       end ;;
  let '(args, line) := r in
  exit_code <- match args with
               | Some args => shell_execute line args
               | None => retM exit_code
               end ;;
  retM exit_code.

(** How the loop stands when the model stops following it: it was left
    ([running] was 0), or rounds remain to be run with this [running]. *)
Inductive loop_state := Terminated | Running (running : Z).

Fixpoint shell_loop_from (rounds : nat) (running : Z) : M loop_state :=
  if (running =? 0)%Z then retM Terminated
  else
    match rounds with
    | O => retM (Running running)
    | S rounds =>
        shell_loop_body ;;;
        shell_loop_from rounds running
    end.

(** Shell entry point, followed for at most [rounds] rounds of its loop. *)
Definition shell_loop (rounds : nat) : M loop_state :=
  let running := 1%Z in
  printf nl ;;;
  printf "Welcome to a tiny PS4 shell, " ;;;
  printf ("compiled " +:+ DATE +:+ " at " +:+ TIME +:+ nl) ;;;
  printf ("Type 'help' for a list of commands" +:+ nl) ;;;
  printf nl ;;;
  setenv_keep "HOME" "/" ;;;
  setenv_keep "PWD" "/" ;;;
  shell_loop_from rounds running.

(** ** Vocabulary of the properties *)

(** An argument vector: the pointers [ps], the NULL marker, and whatever
    cells of the array follow it. *)
Definition argv_of (ps : list nat) (rest : list (option ptr))
  : list (option ptr) :=
  ((fun p => Some (Ptr p)) <$> ps) ++ Some Null :: rest.

(** A status that ends the wait loop of [shell_fork]. *)
Definition terminal (status : Z) : bool :=
  (WIFEXITED status || WIFSIGNALED status)%bool.

(** What a call may change besides the pending input, the allocator and
    errno: nothing. *)
Definition quiet (w w' : world) : Prop :=
  w_stdout w' = w_stdout w /\ w_stderr w' = w_stderr w
  /\ w_fork w' = w_fork w /\ w_wait w' = w_wait w
  /\ w_env w' = w_env w /\ w_cwd w' = w_cwd w
  /\ w_globals w' = w_globals w /\ w_bufmode w' = w_bufmode w.

(** The text [shell_prompt] prints in [w]. *)
Definition prompt_text (w : world) : string :=
  match w_env w !! "PWD" with
  | Some d => d
  | None => match fst (getcwd PATH_MAX w) with
            | Ret (Some d) => d
            | _ => "(null)"
            end
  end +:+ "$ ".

(** [n] copies of a text in a row. *)
Fixpoint repeated (n : nat) (s : string) : string :=
  match n with
  | O => ""
  | S n => s +:+ repeated n s
  end.

(** Standard input is at its end: every read still to come returns 0. *)
Definition at_eof (w : world) : Prop :=
  Forall (fun r => r = RdEof) (w_stdin w).

(** A read that belongs to a line still being typed: a byte other than
    the newline, or a read interrupted by a signal. *)
Definition line_event (r : read_result) : Prop :=
  match r with
  | RdByte c => c <> NL
  | RdError e => e = EINTR
  | RdEof => False
  end.

(** The bytes a run of reads delivers. *)
Fixpoint delivered (evs : list read_result) : list ascii :=
  match evs with
  | RdByte c :: evs => c :: delivered evs
  | _ :: evs => delivered evs
  | [] => []
  end.

(** Every allocation still to come succeeds. *)
Definition heap_ok (w : world) : Prop :=
  Forall (fun ok => ok = true) (w_heap w).

(** The delimiter set in the spec's words: space, tab, carriage return,
    newline, bell. *)
Definition spec_delimiter (c : ascii) : bool :=
  bool_decide (c ∈ [" "; "009"; "013"; "010"; "007"]%char).

(** The text cut at every delimiter: the pieces between delimiters, empty
    ones included. *)
Fixpoint spec_pieces (s : list ascii) : list (list ascii) :=
  match s with
  | [] => [[]]
  | c :: s =>
      if spec_delimiter c then [] :: spec_pieces s
      else match spec_pieces s with
           | f :: fs => (c :: f) :: fs
           | [] => [[c]]
           end
  end.

(** The tokens of a text in the spec's words: the text is split on the
    delimiter set, a run of delimiters counts as one separator and no
    empty token is produced. *)
Definition spec_tokens (s : list ascii) : list (list ascii) :=
  filter (fun f => f <> []) (spec_pieces s).

(** [token = strtok(...)] followed by the rounds of the loop: what
    [shell_splitline] does after its [malloc], and what each round does
    after storing its token. *)
Definition split_rest (fuel : nat) (sp : ptr) (line : block) (last : nat)
    (bufsize position : Z) (tokens : list (option ptr))
  : M (option (list (option ptr)) * block) :=
  r <- strtok_m sp SHELL_TOK_DELIM line last ;;
  let '(token, line, last) := r in
  shell_splitline_loop fuel token line last bufsize position tokens.

(** The first entry of a table that carries the name [a0]. *)
Definition lookup_command (cmds : list shell_command_t) (a0 : string)
  : option shell_command_t :=
  List.find (fun cmd => String.eqb (name cmd) a0) cmds.

(** One line per entry of a table, as [main_help] prints them: two spaces,
    the name, a newline. *)
Fixpoint help_lines (cmds : list shell_command_t) : string :=
  match cmds with
  | [] => ""
  | cmd :: cmds => "  " +:+ name cmd +:+ nl +:+ help_lines cmds
  end.

(** What [shell_loop] prints before its loop. *)
Definition banner : string :=
  nl +:+ "Welcome to a tiny PS4 shell, "
  +:+ ("compiled " +:+ DATE +:+ " at " +:+ TIME +:+ nl)
  +:+ ("Type 'help' for a list of commands" +:+ nl) +:+ nl.

(** Words joined by single spaces. *)
Fixpoint join_words (ts : list (list ascii)) : list ascii :=
  match ts with
  | [] => []
  | [t] => t
  | t :: ts => t ++ " "%char :: join_words ts
  end.

(** A word that can be an argument: not empty, without delimiter and
    without NUL. *)
Definition word (t : list ascii) : Prop :=
  t <> [] /\ Forall (fun c => spec_delimiter c = false) t
  /\ Forall (fun c => c <> NUL) t.




(** ** Properties *)

(** *** Strings *)

Lemma c_str_no_NUL (b : block) (s : list ascii) :
  c_str b = Some s -> Forall (fun c => c <> NUL) s.
Proof.
  revert s. induction b as [|[c|] b IH]; intros s; simpl; try discriminate.
  destruct (Ascii.eqb_spec c NUL) as [->|Hc].
  - intros [= <-]. constructor.
  - destruct (c_str b) as [s'|]; simpl; [|discriminate].
    intros [= <-]. constructor; auto.
Qed.

Lemma N_of_ascii_NUL (c : ascii) : c <> NUL -> (0 < Z.of_N (N_of_ascii c))%Z.
Proof.
  intros Hc. destruct (N_of_ascii c) eqn:E; [|lia].
  exfalso. apply Hc. rewrite <- (ascii_N_embedding c), E. reflexivity.
Qed.

Lemma strcmp_refl (a : list ascii) : strcmp a a = 0%Z.
Proof. induction a as [|x a IH]; simpl; [|rewrite Ascii.eqb_refl]; auto. Qed.

Lemma strcmp_zero (a b : list ascii) :
  Forall (fun c => c <> NUL) a -> Forall (fun c => c <> NUL) b ->
  strcmp a b = 0%Z -> a = b.
Proof.
  intros Ha. revert b. induction Ha as [|x a Hx Ha IH]; intros b Hb.
  - destruct Hb as [|y b Hy Hb]; simpl; [reflexivity|].
    pose proof (N_of_ascii_NUL y Hy). lia.
  - destruct Hb as [|y b Hy Hb]; simpl.
    + pose proof (N_of_ascii_NUL x Hx). lia.
    + destruct (Ascii.eqb_spec x y) as [->|Hxy].
      * intros H. f_equal. auto.
      * intros H. exfalso. apply Hxy.
        rewrite <- (ascii_N_embedding x), <- (ascii_N_embedding y).
        f_equal. lia.
Qed.

Lemma list_ascii_no_NUL_name (cmd : shell_command_t) :
  cmd ∈ commands ->
  Forall (fun c => c <> NUL) (list_ascii_of_string (name cmd)).
Proof.
  intros H. unfold commands in H.
  repeat (apply elem_of_cons in H as [->|H];
          [simpl; repeat (constructor; [unfold NUL; intros [=]|]);
           constructor|]).
  inversion H.
Qed.

(** *** Argument vectors *)

Lemma count_args_argv_of ps rest (k : Z) w :
  (k + Z.of_nat (length ps) <= INT_MAX)%Z ->
  count_args (argv_of ps rest) k w = (Ret (k + Z.of_nat (length ps))%Z, w).
Proof.
  revert k. induction ps as [|p ps IH]; intros k Hk; simpl in *.
  - unfold retM. do 2 f_equal. lia.
  - unfold bindM, int_add.
    destruct (Z.leb_spec (k + 1) INT_MAX); [|lia].
    unfold argv_of in IH. rewrite IH by lia. do 2 f_equal. lia.
Qed.

(** *** The prompt (C5) *)

(** C5. The prompt is the working directory followed by "$ ": the value of
    the environment variable PWD when it is set; else the directory that
    getcwd reports; else, when getcwd fails, the text "(null)".  Printing
    it changes nothing but standard output (and errno when getcwd fails),
    so it precedes the read of the round. *)
Theorem shell_prompt_resolution (w : world) :
  (forall d, w_env w !! "PWD" = Some d ->
     shell_prompt w = (Ret tt, set_stdout (w_stdout w +:+ d +:+ "$ ") w))
  /\ (forall d, w_env w !! "PWD" = None -> w_cwd w = Some d ->
        (Z.of_nat (String.length d) + 1 <= PATH_MAX)%Z ->
        shell_prompt w = (Ret tt, set_stdout (w_stdout w +:+ d +:+ "$ ") w))
  /\ (w_env w !! "PWD" = None ->
      fst (getcwd PATH_MAX w) = Ret None ->
      fst (shell_prompt w) = Ret tt
      /\ w_stdout (snd (shell_prompt w)) = w_stdout w +:+ "(null)$ "
      /\ w_stdin (snd (shell_prompt w)) = w_stdin w
      /\ w_stderr (snd (shell_prompt w)) = w_stderr w).
Proof.
  unfold shell_prompt, bindM, getenv, printf, retM. split; [|split].
  - intros d ->. reflexivity.
  - intros d -> Hd Hlen. unfold getcwd. rewrite Hd.
    destruct (Z.leb_spec (Z.of_nat (String.length d) + 1) PATH_MAX); [|lia].
    reflexivity.
  - intros -> Hcwd. unfold getcwd in *.
    destruct (w_cwd w) as [d|]; simpl in *; [|auto].
    destruct (_ <=? _)%Z; simpl in *; [discriminate|auto].
Qed.

(** *** Dispatch (C8, C9, C10) *)

Lemma shell_execute_in_empty cmds line rest w :
  shell_execute_in cmds line (argv_of [] rest) w = (Ret (-1)%Z, w).
Proof. reflexivity. Qed.

Lemma shell_execute_scan_not_found cmds line p ps rest a0 argc w :
  str_at line p = Some a0 ->
  Forall (fun cmd => Forall (fun c => c <> NUL)
                            (list_ascii_of_string (name cmd))
                     /\ name cmd <> string_of_list_ascii a0) cmds ->
  shell_execute_scan cmds line argc (argv_of (p :: ps) rest) w
  = (Ret (-1)%Z,
     set_stdout (w_stdout w +:+ string_of_list_ascii a0
                 +:+ ": command not found" +:+ nl) w).
Proof.
  intros Ha0 Hall. induction Hall as [|cmd cmds [Hnul Hne] _ IH]; simpl.
  - unfold bindM, arg0. simpl. rewrite Ha0. reflexivity.
  - unfold bindM at 1. unfold arg0 at 1. simpl. rewrite Ha0.
    destruct (Z.eqb_spec (strcmp a0 (list_ascii_of_string (name cmd))) 0)
      as [Heq|_]; simpl; [|exact IH].
    exfalso. apply Hne. apply strcmp_zero in Heq; auto.
    + rewrite Heq. symmetry. apply string_of_list_ascii_of_string.
    + apply c_str_no_NUL with (b := drop p line). exact Ha0.
Qed.

Lemma shell_execute_not_found_gen line p ps rest a0 w :
  str_at line p = Some a0 ->
  (Z.of_nat (length (p :: ps)) <= INT_MAX)%Z ->
  string_of_list_ascii a0 ∉ (name <$> commands) ->
  shell_execute line (argv_of (p :: ps) rest) w
  = (Ret (-1)%Z,
     set_stdout (w_stdout w +:+ string_of_list_ascii a0
                 +:+ ": command not found" +:+ nl) w).
Proof.
  intros Ha0 Hlen Hnot. unfold shell_execute, shell_execute_in.
  unfold bindM at 1. rewrite count_args_argv_of by (simpl in *; lia).
  destruct (Z.eqb_spec (0 + Z.of_nat (length (p :: ps))) 0) as [E|_];
    [simpl in E; lia|].
  apply shell_execute_scan_not_found; [exact Ha0|].
  apply Forall_forall. intros cmd Hin. split.
  - apply list_ascii_no_NUL_name. exact Hin.
  - intros E. apply Hnot. rewrite <- E.
    apply list_elem_of_fmap. exists cmd. auto.
Qed.

(** C8. When the scan of the argument vector stops at once at the NULL
    marker (argc = 0), shell_execute returns -1 and leaves the world as it
    was, and it does so over every command table: the table is not
    consulted. *)
Theorem shell_execute_no_args (cmds : list shell_command_t) (line : block)
    (argv : list (option ptr)) (w : world) :
  argv !! 0 = Some (Some Null) ->
  count_args argv 0 w = (Ret 0%Z, w)
  /\ shell_execute_in cmds line argv w = (Ret (-1)%Z, w)
  /\ shell_execute line argv w = (Ret (-1)%Z, w).
Proof.
  destruct argv as [|[[|p]|] rest]; simpl; try discriminate.
  intros _. repeat split.
Qed.

(** C9. For an argument vector with at least one token whose first token
    is the name of no entry of the command table, shell_execute prints
    "<token>: command not found" on standard output and returns -1; the
    world is otherwise untouched, so sys_fork is not called and no command
    runs. *)
Theorem shell_execute_not_found (line : block) (p : nat) (ps : list nat)
    (rest : list (option ptr)) (a0 : list ascii) (w : world) :
  str_at line p = Some a0 ->
  (Z.of_nat (length (p :: ps)) <= INT_MAX)%Z ->
  string_of_list_ascii a0 ∉ (name <$> commands) ->
  shell_execute line (argv_of (p :: ps) rest) w
  = (Ret (-1)%Z,
     set_stdout (w_stdout w +:+ string_of_list_ascii a0
                 +:+ ": command not found" +:+ nl) w)
  /\ w_fork (snd (shell_execute line (argv_of (p :: ps) rest) w)) = w_fork w.
Proof.
  intros Ha0 Hlen Hnot.
  rewrite (shell_execute_not_found_gen line p ps rest a0 w) by assumption.
  split; reflexivity.
Qed.

(** *** The process executor (C1, C10) *)

Lemma shell_fork_error main argc argv w :
  (w_fork w = [] \/ exists e forks, w_fork w = ForkError e :: forks) ->
  fst (shell_fork main argc argv w) = Ret (-1)%Z
  /\ w_stdout (snd (shell_fork main argc argv w)) = w_stdout w
  /\ w_stderr (snd (shell_fork main argc argv w))
     = w_stderr w
       +:+ "fork: " +:+ strerror (w_errno (snd (sys_fork w))) +:+ nl.
Proof.
  unfold shell_fork, bindM, sys_fork.
  intros [->|(e & forks & ->)]; simpl; auto.
Qed.

Lemma shell_fork_wait_terminal stops s rest status w :
  Forall (fun x => terminal x = false) stops ->
  terminal s = true ->
  shell_fork_wait ((WaitStatus <$> stops) ++ WaitStatus s :: rest) status w
  = (Ret (WEXITSTATUS s), set_wait rest w).
Proof.
  intros Hstops Hs. revert status.
  induction Hstops as [|x stops Hx _ IH]; intros status; simpl.
  - unfold terminal in Hs.
    destruct (WIFEXITED s), (WIFSIGNALED s); simpl in *;
      try reflexivity; discriminate.
  - unfold terminal in Hx.
    destruct (WIFEXITED x), (WIFSIGNALED x); simpl in *;
      try discriminate. apply IH.
Qed.

Lemma land_127 (x : Z) : Z.land x 127 = (x mod 128)%Z.
Proof. apply (Z.land_ones x 7). lia. Qed.

Lemma wstatus_exited (code : Z) :
  WIFEXITED (wstatus (ChildExited code)) = true
  /\ WEXITSTATUS (wstatus (ChildExited code)) = Z.land code 255
  /\ (0 <= Z.land code 255 <= 255)%Z
  /\ ((0 <= code <= 255)%Z -> Z.land code 255 = code).
Proof.
  unfold WIFEXITED, WEXITSTATUS, W_STATUS, wstatus.
  assert (H255 : Z.land code 255 = (code mod 256)%Z)
    by (apply (Z.land_ones code 8); lia).
  repeat split.
  - rewrite land_127, Z.shiftl_mul_pow2 by lia.
    apply Z.eqb_eq. change (2 ^ 8)%Z with (2 * 128)%Z.
    rewrite Z.mul_assoc. apply Z.mod_mul. lia.
  - rewrite Z.shiftr_shiftl_l by lia. apply Z.shiftl_0_r.
  - rewrite H255. apply Z.mod_pos_bound. lia.
  - rewrite H255. pose proof (Z.mod_pos_bound code 256). lia.
  - intros Hc. rewrite H255. apply Z.mod_small. lia.
Qed.

Lemma wstatus_signaled (sig : Z) (core : bool) :
  (1 <= sig <= 126)%Z ->
  WIFEXITED (wstatus (ChildSignaled sig core)) = false
  /\ WIFSIGNALED (wstatus (ChildSignaled sig core)) = true
  /\ WTERMSIG (wstatus (ChildSignaled sig core)) = sig
  /\ WEXITSTATUS (wstatus (ChildSignaled sig core)) = 0%Z.
Proof.
  intros Hsig.
  assert (Hst : W_STATUS (wstatus (ChildSignaled sig core)) = sig).
  { unfold W_STATUS, wstatus. rewrite Z.land_lor_distr_l, !land_127.
    rewrite (Z.mod_small sig) by lia.
    destruct core; simpl; [change (128 mod 128)%Z with 0%Z|];
      apply Z.lor_0_r. }
  unfold WIFEXITED, WIFSIGNALED, WTERMSIG. rewrite Hst.
  unfold W_STOPPED. repeat split.
  - apply Z.eqb_neq. lia.
  - destruct (Z.eqb_spec sig 127), (Z.eqb_spec sig 0); simpl; auto; lia.
  - unfold WEXITSTATUS, wstatus. rewrite Z.shiftr_lor.
    rewrite (Z.shiftr_div_pow2 sig) by lia.
    rewrite Z.div_small by (change (2 ^ 8)%Z with 256%Z; lia).
    destruct core; reflexivity.
Qed.

Lemma wstatus_stopped (sig : Z) :
  (0 <= sig)%Z -> terminal (wstatus (ChildStopped sig)) = false.
Proof.
  intros Hsig.
  assert (Hst : W_STATUS (wstatus (ChildStopped sig)) = 127%Z).
  { unfold W_STATUS, wstatus, W_STOPPED.
    rewrite Z.land_lor_distr_l, !land_127, Z.shiftl_mul_pow2 by lia.
    change (2 ^ 8)%Z with (2 * 128)%Z.
    rewrite Z.mul_assoc, Z.mod_mul by lia. reflexivity. }
  unfold terminal, WIFEXITED, WIFSIGNALED. rewrite Hst. reflexivity.
Qed.

Lemma shell_fork_parent_gen main argc argv pid forks stops s rest w :
  w_fork w = ForkParent pid :: forks ->
  (0 < pid)%Z ->
  w_wait w = (WaitStatus <$> stops) ++ WaitStatus s :: rest ->
  Forall (fun x => terminal x = false) stops ->
  terminal s = true ->
  shell_fork main argc argv w
  = (Ret (WEXITSTATUS s), set_wait rest (set_fork forks w)).
Proof.
  intros Hfork Hpid Hwait Hstops Hs.
  unfold shell_fork, bindM, sys_fork. rewrite Hfork.
  destruct (Z.eqb_spec pid 0); [lia|].
  destruct (Z.ltb_spec pid 0); [lia|].
  simpl. rewrite Hwait.
  apply shell_fork_wait_terminal; assumption.
Qed.

(** C1, as amended.  In the parent, shell_fork calls sys_waitpid again
    after every status that reports a stopped child, until a status is
    reported for which WIFEXITED or WIFSIGNALED holds; it then returns
    WEXITSTATUS of that status, whichever of the two holds.  For a child
    that exited normally this is its exit code.  For a child terminated by
    a signal the same extraction is used: the value is the one a child
    that exited with code 0 yields. *)
Theorem shell_fork_parent_status (main : main_t) (argc : Z)
    (argv : list string) (pid : Z) (forks : list fork_result)
    (stops : list Z) (s : Z) (rest : list wait_result) (w : world) :
  w_fork w = ForkParent pid :: forks ->
  (0 < pid)%Z ->
  w_wait w = (WaitStatus <$> stops) ++ WaitStatus s :: rest ->
  Forall (fun x => terminal x = false) stops ->
  terminal s = true ->
  shell_fork main argc argv w
  = (Ret (WEXITSTATUS s), set_wait rest (set_fork forks w))
  /\ (forall code, (0 <= code <= 255)%Z ->
        s = wstatus (ChildExited code) -> WEXITSTATUS s = code)
  /\ (forall sig core, (1 <= sig <= 126)%Z ->
        s = wstatus (ChildSignaled sig core) ->
        WEXITSTATUS s = WEXITSTATUS (wstatus (ChildExited 0))).
Proof.
  intros Hfork Hpid Hwait Hstops Hs. split; [|split].
  - eapply shell_fork_parent_gen; eassumption.
  - intros code Hc ->. destruct (wstatus_exited code) as (_ & -> & _ & H).
    auto.
  - intros sig core Hsig ->.
    destruct (wstatus_signaled sig core Hsig) as (_ & _ & _ & ->).
    reflexivity.
Qed.

(** C10.  shell_execute on an argument vector without tokens,
    shell_execute on a first token that names no command, and shell_fork
    when sys_fork fails all return -1; the caller sees one value for the
    three.  -1 lies outside 0..255, the range of the status that
    shell_fork returns for a child that exited or was signalled. *)
Theorem sentinels_coincide (line : block) (rest rest' : list (option ptr))
    (p : nat) (ps : list nat) (a0 : list ascii) (main : main_t) (argc : Z)
    (args : list string) (e : Z) (forks : list fork_result) (w : world) :
  str_at line p = Some a0 ->
  (Z.of_nat (length (p :: ps)) <= INT_MAX)%Z ->
  string_of_list_ascii a0 ∉ (name <$> commands) ->
  w_fork w = ForkError e :: forks ->
  fst (shell_execute line (argv_of [] rest) w) = Ret (-1)%Z
  /\ fst (shell_execute line (argv_of (p :: ps) rest') w) = Ret (-1)%Z
  /\ fst (shell_fork main argc args w) = Ret (-1)%Z
  /\ ~ (0 <= -1 <= 255)%Z
  /\ (forall code, (0 <= WEXITSTATUS (wstatus (ChildExited code)) <= 255)%Z)
  /\ (forall sig core, (1 <= sig <= 126)%Z ->
        (0 <= WEXITSTATUS (wstatus (ChildSignaled sig core)) <= 255)%Z).
Proof.
  intros Ha0 Hlen Hnot Hfork. repeat split.
  - rewrite (shell_execute_not_found_gen line p ps rest' a0 w) by assumption.
    reflexivity.
  - apply shell_fork_error. right. eauto.
  - lia.
  - destruct (wstatus_exited code) as (_ & -> & H & _). lia.
  - destruct (wstatus_exited code) as (_ & -> & H & _). lia.
  - destruct (wstatus_signaled sig core) as (_ & _ & _ & ->); lia.
  - destruct (wstatus_signaled sig core) as (_ & _ & _ & ->); lia.
Qed.

(** *** The loop (C2, C3) *)

Lemma quiet_refl w : quiet w w.
Proof. repeat split. Qed.

Lemma quiet_trans w1 w2 w3 : quiet w1 w2 -> quiet w2 w3 -> quiet w1 w3.
Proof. unfold quiet. intuition congruence. Qed.

Lemma shell_prompt_prints w :
  fst (shell_prompt w) = Ret tt
  /\ w_stdout (snd (shell_prompt w)) = w_stdout w +:+ prompt_text w
  /\ w_stdin (snd (shell_prompt w)) = w_stdin w
  /\ w_heap (snd (shell_prompt w)) = w_heap w
  /\ w_stderr (snd (shell_prompt w)) = w_stderr w
  /\ w_fork (snd (shell_prompt w)) = w_fork w
  /\ w_env (snd (shell_prompt w)) = w_env w
  /\ w_cwd (snd (shell_prompt w)) = w_cwd w.
Proof.
  unfold shell_prompt, prompt_text, bindM, getenv, printf, retM.
  destruct (w_env w !! "PWD") as [d|]; simpl; [repeat split|].
  unfold getcwd. destruct (w_cwd w) as [d|] eqn:E; simpl;
    [|repeat split; auto].
  destruct (_ <=? _)%Z; simpl; repeat split; auto.
Qed.

Lemma shell_loop_never_terminated rounds running w :
  running <> 0%Z ->
  fst (shell_loop_from rounds running w) <> Ret Terminated.
Proof.
  intros Hrun. revert w. induction rounds as [|rounds IH]; intros w; simpl;
    destruct (Z.eqb_spec running 0) as [?|_]; try contradiction.
  - discriminate.
  - unfold bindM. destruct (shell_loop_body w) as [[rc| | |] w'];
      simpl; try discriminate. apply IH.
Qed.

Lemma append_assoc (a b c : string) : (a +:+ b) +:+ c = a +:+ (b +:+ c).
Proof.
  induction a as [|x a IH]; [reflexivity|].
  change (String x ((a +:+ b) +:+ c) = String x (a +:+ (b +:+ c))).
  rewrite IH. reflexivity.
Qed.

Lemma append_nil_r (a : string) : a +:+ "" = a.
Proof.
  induction a as [|x a IH]; [reflexivity|].
  change (String x (a +:+ "") = String x a). rewrite IH. reflexivity.
Qed.

Lemma prompt_text_ext w w' :
  w_env w' = w_env w -> w_cwd w' = w_cwd w -> prompt_text w' = prompt_text w.
Proof.
  intros He Hc. unfold prompt_text, getcwd. rewrite He, Hc.
  destruct (w_env w !! "PWD"); [reflexivity|].
  destruct (w_cwd w); [|reflexivity].
  destruct (_ <=? _)%Z; reflexivity.
Qed.

Lemma shell_readline_eof w :
  at_eof w ->
  fst (shell_readline w) = Ret None
  /\ at_eof (snd (shell_readline w))
  /\ w_stdout (snd (shell_readline w)) = w_stdout w
  /\ w_fork (snd (shell_readline w)) = w_fork w
  /\ w_env (snd (shell_readline w)) = w_env w
  /\ w_cwd (snd (shell_readline w)) = w_cwd w.
Proof.
  unfold at_eof, shell_readline, bindM, malloc, heap_next. intros Heof.
  destruct (w_heap w) as [|[|] h]; simpl.
  - destruct Heof as [|r rest -> Hrest]; simpl; repeat split; auto.
  - destruct Heof as [|r rest -> Hrest]; simpl; repeat split; auto.
  - repeat split; auto.
Qed.

Lemma shell_loop_body_eof w :
  at_eof w ->
  exists w',
    shell_loop_body w = (Ret 0%Z, w')
    /\ at_eof w'
    /\ w_stdout w' = w_stdout w +:+ prompt_text w
    /\ w_fork w' = w_fork w
    /\ w_env w' = w_env w
    /\ w_cwd w' = w_cwd w.
Proof.
  intros Heof.
  destruct (shell_prompt_prints w) as (Hp & Ho & Hi & _ & _ & Hf & He & Hc).
  destruct (shell_prompt w) as [r w1] eqn:E1. simpl in *. subst r.
  set (w2 := set_bufmode IONBF w1).
  assert (Heof2 : at_eof w2)
    by (unfold at_eof, w2; simpl; rewrite Hi; exact Heof).
  destruct (shell_readline_eof w2 Heof2)
    as (Hr & Heof3 & Ho3 & Hf3 & He3 & Hc3).
  destruct (shell_readline w2) as [r w3] eqn:E2. simpl in *. subst r.
  exists (set_bufmode IOLBF w3).
  unfold shell_loop_body, bindM. rewrite E1. unfold setvbuf at 1.
  fold w2. rewrite E2. simpl.
  repeat split; auto; congruence.
Qed.

(** C2, as amended.  When every read of standard input still to come
    reports the end of the stream, a round of the loop prints the prompt,
    obtains no line, dispatches nothing and leaves [running] as it is:
    after any number of rounds the loop is still running, the prompt has
    been printed once per round, input is still at its end and sys_fork
    was not called. *)
Theorem shell_loop_end_of_input (rounds : nat) (running : Z) (w : world) :
  running <> 0%Z ->
  at_eof w ->
  fst (shell_loop_from rounds running w) = Ret (Running running)
  /\ w_stdout (snd (shell_loop_from rounds running w))
     = w_stdout w +:+ repeated rounds (prompt_text w)
  /\ at_eof (snd (shell_loop_from rounds running w))
  /\ w_fork (snd (shell_loop_from rounds running w)) = w_fork w.
Proof.
  intros Hrun. revert w. induction rounds as [|rounds IH]; intros w Heof;
    simpl; destruct (Z.eqb_spec running 0) as [?|_]; try contradiction.
  - simpl. rewrite append_nil_r. auto.
  - destruct (shell_loop_body_eof w Heof)
      as (w1 & Hb & Heof' & Ho & Hf & He & Hc).
    unfold bindM. rewrite Hb.
    destruct (IH w1 Heof') as (H1 & H2 & H3 & H4).
    repeat split; auto.
    + rewrite H2, Ho, append_assoc, (prompt_text_ext w w1); auto.
    + congruence.
Qed.

(** *** The line reader (C6) *)

Lemma heap_next_ok w :
  heap_ok w ->
  exists w', heap_next w = (true, w') /\ heap_ok w' /\ quiet w w'
             /\ w_stdin w' = w_stdin w.
Proof.
  unfold heap_ok, heap_next. intros H.
  destruct (w_heap w) as [|ok h] eqn:E.
  - exists w. rewrite E. repeat split; auto.
  - apply Forall_cons in H as [-> Hh].
    exists (set_heap h w). repeat split; auto.
Qed.

Lemma shell_readline_loop_byte c rest bufsize position buffer w :
  c <> NL ->
  shell_readline_loop (RdByte c :: rest) bufsize position buffer w
  = match readline_store c bufsize position buffer w with
    | (Ret (Some (bufsize, position, buffer)), w) =>
        shell_readline_loop rest bufsize position buffer w
    | (Ret None, w) => (Ret None, set_stdin rest w)
    | (Exited rc, w) => (Exited rc, set_stdin rest w)
    | (Hang, w) => (Hang, set_stdin rest w)
    | (Undef, w) => (Undef, set_stdin rest w)
    end.
Proof.
  intros Hc. simpl.
  destruct (Ascii.eqb_spec c NL) as [?|_]; [contradiction|]. reflexivity.
Qed.

Lemma bindM_ret {A B} (m : M A) (k : A -> M B) a w w' :
  m w = (Ret a, w') -> bindM m k w = k a w'.
Proof. unfold bindM. intros ->. reflexivity. Qed.

Lemma int_add_ok (a b : Z) w :
  (a + b <= INT_MAX)%Z -> int_add a b w = (Ret (a + b)%Z, w).
Proof.
  intros H. unfold int_add. destruct (Z.leb_spec (a + b) INT_MAX); [|lia].
  reflexivity.
Qed.

Lemma store_ok {A} (b : list (option A)) (i : Z) (x : A) w :
  (0 <= i < Z.of_nat (length b))%Z ->
  store b i x w = (Ret (<[Z.to_nat i := Some x]> b), w).
Proof.
  intros H. unfold store.
  destruct (Z.leb_spec 0 i); [|lia].
  destruct (Z.ltb_spec i (Z.of_nat (length b))); [|lia]. reflexivity.
Qed.

Lemma realloc_ok {A} (old : list (option A)) (n : Z) w :
  heap_ok w ->
  exists w',
    realloc old n w
    = (Ret (Some (take (Z.to_nat n) old
                  ++ replicate (Z.to_nat n - length old) None)), w')
    /\ heap_ok w' /\ quiet w w' /\ w_stdin w' = w_stdin w.
Proof.
  intros H. destruct (heap_next_ok w H) as (w' & E & H').
  exists w'. unfold realloc. rewrite E. auto.
Qed.

Lemma malloc_ok {A} (n : Z) w :
  heap_ok w ->
  exists w',
    malloc (A := A) n w = (Ret (Some (replicate (Z.to_nat n) None)), w')
    /\ heap_ok w' /\ quiet w w' /\ w_stdin w' = w_stdin w.
Proof.
  intros H. destruct (heap_next_ok w H) as (w' & E & H').
  exists w'. unfold malloc. rewrite E. auto.
Qed.

Lemma readline_store_ok c bufsize position buffer done w :
  heap_ok w ->
  length buffer = Z.to_nat bufsize ->
  (0 <= position < bufsize)%Z ->
  (bufsize <= position + SHELL_LINE_BUFSIZE)%Z ->
  take (Z.to_nat position) buffer = Some <$> done ->
  (position + 1 + SHELL_LINE_BUFSIZE <= INT_MAX)%Z ->
  exists bufsize' buffer' w',
    readline_store c bufsize position buffer w
    = (Ret (Some (bufsize', position + 1, buffer'))%Z, w')
    /\ length buffer' = Z.to_nat bufsize'
    /\ (position + 1 < bufsize')%Z
    /\ (bufsize' <= position + 1 + SHELL_LINE_BUFSIZE)%Z
    /\ take (Z.to_nat (position + 1)) buffer' = Some <$> (done ++ [c])
    /\ heap_ok w' /\ quiet w w' /\ w_stdin w' = w_stdin w.
Proof.
  intros Hheap Hlen Hpos Hsize Htake Hmax.
  unfold SHELL_LINE_BUFSIZE in *.
  set (b1 := <[Z.to_nat position := Some c]> buffer).
  assert (Hlen1 : length b1 = Z.to_nat bufsize)
    by (unfold b1; rewrite length_insert; exact Hlen).
  assert (Htake1 : take (Z.to_nat (position + 1)) b1 = Some <$> (done ++ [c])).
  { replace (Z.to_nat (position + 1)) with (S (Z.to_nat position)) by lia.
    rewrite (take_S_r b1 _ (Some c)).
    - unfold b1. rewrite take_insert_ge by lia. rewrite Htake, fmap_app.
      reflexivity.
    - unfold b1. apply list_lookup_insert_eq. lia. }
  assert (Hin : (0 <= position < Z.of_nat (length buffer))%Z) by lia.
  assert (Hp1 : (position + 1 <= INT_MAX)%Z) by lia.
  unfold readline_store.
  rewrite (bindM_ret _ _ _ _ _ (store_ok buffer position c w Hin)).
  fold b1.
  rewrite (bindM_ret _ _ _ _ _ (int_add_ok position 1 w Hp1)).
  destruct (Z.geb_spec (position + 1) bufsize) as [Hge|Hlt].
  - assert (Hb1 : (bufsize + 1024 <= INT_MAX)%Z) by lia.
    rewrite (bindM_ret _ _ _ _ _ (int_add_ok bufsize 1024 w Hb1)).
    destruct (realloc_ok b1 (bufsize + 1024) w Hheap)
      as (w' & E & Hheap' & Hq & Hstdin).
    rewrite (bindM_ret _ _ _ _ _ E). unfold retM.
    exists (bufsize + 1024)%Z,
      (take (Z.to_nat (bufsize + 1024)) b1
       ++ replicate (Z.to_nat (bufsize + 1024) - length b1) None), w'.
    repeat split; auto; try lia; try apply Hq.
    + rewrite length_app, length_take, length_replicate. lia.
    + rewrite (take_ge b1) by lia.
      rewrite take_app_le by lia. exact Htake1.
  - unfold retM. exists bufsize, b1, w.
    repeat split; auto; lia.
Qed.

Lemma c_str_app (t : list ascii) (X : block) :
  Forall (fun c => c <> NUL) t ->
  c_str ((Some <$> t) ++ Some NUL :: X) = Some t.
Proof.
  induction 1 as [|c t Hc _ IH]; [reflexivity|].
  rewrite fmap_cons. cbn [app c_str].
  destruct (Ascii.eqb_spec c NUL) as [?|_]; [contradiction|].
  rewrite IH. reflexivity.
Qed.

Lemma str_at_prefix (b : block) (p : nat) (t : list ascii) :
  Forall (fun c => c <> NUL) t ->
  take (length t) (drop p b) = Some <$> t ->
  b !! (p + length t) = Some (Some NUL) ->
  str_at b p = Some t.
Proof.
  intros Ht Htake Hnul. unfold str_at.
  rewrite <- (take_drop (length t) (drop p b)), Htake.
  rewrite drop_drop.
  destruct (drop (p + length t) b) as [|x X] eqn:E.
  - apply (f_equal (fun l => l !! 0)) in E.
    rewrite lookup_drop, Nat.add_0_r, Hnul in E. discriminate.
  - apply (f_equal (fun l => l !! 0)) in E.
    rewrite lookup_drop, Nat.add_0_r, Hnul in E. simpl in E.
    injection E as <-. apply c_str_app. exact Ht.
Qed.

Lemma shell_readline_loop_line evs :
  Forall line_event evs ->
  forall rest bufsize position buffer done w,
    heap_ok w ->
    length buffer = Z.to_nat bufsize ->
    (0 <= position < bufsize)%Z ->
    (bufsize <= position + SHELL_LINE_BUFSIZE)%Z ->
    take (Z.to_nat position) buffer = Some <$> done ->
    (position + Z.of_nat (length (delivered evs)) + SHELL_LINE_BUFSIZE
     <= INT_MAX)%Z ->
    exists buffer' w',
      shell_readline_loop (evs ++ RdByte NL :: rest) bufsize position
                          buffer w
      = (Ret (Some buffer'), w')
      /\ take (length (done ++ delivered evs)) buffer'
         = Some <$> (done ++ delivered evs)
      /\ buffer' !! length (done ++ delivered evs) = Some (Some NUL)
      /\ w_stdin w' = rest /\ heap_ok w' /\ quiet w w'.
Proof.
  induction 1 as [|ev evs Hev _ IH];
    intros rest bufsize position buffer done w Hheap Hlen Hpos Hsize
           Htake Hmax.
  - assert (Hd : length done = Z.to_nat position).
    { apply (f_equal length) in Htake.
      rewrite length_take, length_fmap in Htake. lia. }
    assert (Hin : (0 <= position < Z.of_nat (length buffer))%Z) by lia.
    simpl. rewrite (bindM_ret _ _ _ _ _ (store_ok buffer position NUL _ Hin)).
    unfold retM. rewrite app_nil_r.
    exists (<[Z.to_nat position := Some NUL]> buffer), (set_stdin rest w).
    rewrite Hd. repeat split; auto.
    + rewrite take_insert_ge by lia. exact Htake.
    + apply list_lookup_insert_eq. lia.
  - destruct ev as [c| |e]; simpl in Hev; [|contradiction|subst e].
    + change ((RdByte c :: evs) ++ RdByte NL :: rest)
        with (RdByte c :: (evs ++ RdByte NL :: rest)).
      rewrite shell_readline_loop_byte by exact Hev.
      simpl in Hmax.
      destruct (readline_store_ok c bufsize position buffer done w)
        as (bufsize' & buffer' & w' & E & Hlen' & Hpos' & Hsize' & Htake'
            & Hheap' & Hq & Hin'); auto; try lia.
      rewrite E.
      destruct (IH rest bufsize' (position + 1)%Z buffer' (done ++ [c]) w')
        as (b2 & w2 & E2 & Ht2 & Hn2 & Hs2 & Hh2 & Hq2); auto; try lia.
      exists b2, w2. simpl. rewrite <- app_assoc in Ht2, Hn2.
      repeat split; auto; try apply (quiet_trans _ _ _ Hq Hq2).
    + simpl.
      destruct (IH rest bufsize position buffer done (set_errno EINTR w))
        as (b2 & w2 & E2 & Ht2 & Hn2 & Hs2 & Hh2 & Hq2); auto.
      exists b2, w2. repeat split; auto; apply Hq2.
Qed.

Lemma shell_readline_line_gen evs rest w :
  w_stdin w = evs ++ RdByte NL :: rest ->
  Forall line_event evs ->
  heap_ok w ->
  (Z.of_nat (length (delivered evs)) + SHELL_LINE_BUFSIZE <= INT_MAX)%Z ->
  exists buffer w',
    shell_readline w = (Ret (Some buffer), w')
    /\ take (length (delivered evs)) buffer = Some <$> delivered evs
    /\ buffer !! length (delivered evs) = Some (Some NUL)
    /\ w_stdin w' = rest /\ heap_ok w' /\ quiet w w'.
Proof.
  intros Hin Hevs Hheap Hmax. unfold shell_readline.
  destruct (malloc_ok (A := ascii) SHELL_LINE_BUFSIZE w Hheap)
    as (w1 & E & Hheap1 & Hq1 & Hin1).
  rewrite (bindM_ret _ _ _ _ _ E). rewrite Hin1, Hin.
  destruct (shell_readline_loop_line evs Hevs rest SHELL_LINE_BUFSIZE 0%Z
              (replicate (Z.to_nat SHELL_LINE_BUFSIZE) None) [] w1)
    as (b2 & w2 & E2 & Ht2 & Hn2 & Hs2 & Hh2 & Hq2); auto;
    try apply length_replicate; try (unfold SHELL_LINE_BUFSIZE; lia).
  exists b2, w2. repeat split; auto; apply (quiet_trans _ _ _ Hq1 Hq2).
Qed.

(** C6.  When the coming reads deliver the bytes of a line (none of them
    the newline, interrupted reads in between allowed) and then the
    newline, every allocation succeeds and the line is short enough for
    the [int] counters, shell_readline returns a block that holds exactly
    those bytes followed by NUL, whatever the length of the line and the
    number of growth steps; read as a C string it is the line when the
    line has no NUL byte.  The reads up to the newline are consumed and
    nothing is printed. *)
Theorem shell_readline_returns_line (evs : list read_result)
    (rest : list read_result) (w : world) :
  w_stdin w = evs ++ RdByte NL :: rest ->
  Forall line_event evs ->
  heap_ok w ->
  (Z.of_nat (length (delivered evs)) + SHELL_LINE_BUFSIZE <= INT_MAX)%Z ->
  exists buffer w',
    shell_readline w = (Ret (Some buffer), w')
    /\ take (length (delivered evs)) buffer = Some <$> delivered evs
    /\ buffer !! length (delivered evs) = Some (Some NUL)
    /\ (Forall (fun c => c <> NUL) (delivered evs) ->
        str_at buffer 0 = Some (delivered evs))
    /\ w_stdin w' = rest
    /\ w_stdout w' = w_stdout w /\ w_stderr w' = w_stderr w.
Proof.
  intros Hin Hevs Hheap Hmax.
  destruct (shell_readline_line_gen evs rest w Hin Hevs Hheap Hmax)
    as (buffer & w' & E & Ht & Hn & Hs & _ & Hq).
  exists buffer, w'. repeat split; auto; try apply Hq.
  intros Hnul. apply str_at_prefix; auto.
Qed.

(** *** The tokenizer (C7) *)

Lemma spec_delimiter_in_delim (c : ascii) :
  in_delim SHELL_TOK_DELIM c = spec_delimiter c.
Proof.
  unfold spec_delimiter, in_delim, SHELL_TOK_DELIM. simpl.
  repeat match goal with
         | |- context [Ascii.eqb c ?x] =>
             destruct (Ascii.eqb_spec c x) as [->|?]; [reflexivity|]
         end.
  simpl. symmetry. apply bool_decide_eq_false.
  rewrite !elem_of_cons, elem_of_nil. intuition.
Qed.

Lemma spec_delimiter_NUL (c : ascii) : spec_delimiter c = true -> c <> NUL.
Proof. intros H ->. discriminate H. Qed.

Lemma spec_pieces_token (t s : list ascii) (c : ascii) :
  Forall (fun x => spec_delimiter x = false) t ->
  spec_delimiter c = true ->
  spec_pieces (t ++ c :: s) = t :: spec_pieces s.
Proof.
  intros Ht Hc. induction Ht as [|x t Hx _ IH]; simpl.
  - rewrite Hc. reflexivity.
  - rewrite Hx, IH. reflexivity.
Qed.

Lemma spec_pieces_last (t : list ascii) :
  Forall (fun x => spec_delimiter x = false) t -> spec_pieces t = [t].
Proof.
  induction 1 as [|x t Hx _ IH]; simpl; [reflexivity|].
  rewrite Hx, IH. reflexivity.
Qed.

Lemma spec_tokens_delims (d s : list ascii) :
  Forall (fun x => spec_delimiter x = true) d ->
  spec_tokens (d ++ s) = spec_tokens s.
Proof.
  unfold spec_tokens. induction 1 as [|x d Hx _ IH]; simpl; [reflexivity|].
  rewrite Hx. rewrite filter_cons_False by (intros H; apply H; reflexivity).
  exact IH.
Qed.

Lemma spec_tokens_nil : spec_tokens [] = [].
Proof. reflexivity. Qed.

Lemma spec_tokens_token (t s : list ascii) (c : ascii) :
  t <> [] ->
  Forall (fun x => spec_delimiter x = false) t ->
  spec_delimiter c = true ->
  spec_tokens (t ++ c :: s) = t :: spec_tokens s.
Proof.
  intros Hne Ht Hc. unfold spec_tokens.
  rewrite spec_pieces_token by assumption.
  rewrite filter_cons_True by exact Hne. reflexivity.
Qed.

Lemma spec_tokens_last (t : list ascii) :
  t <> [] ->
  Forall (fun x => spec_delimiter x = false) t ->
  spec_tokens t = [t].
Proof.
  intros Hne Ht. unfold spec_tokens. rewrite spec_pieces_last by assumption.
  rewrite filter_cons_True by exact Hne. reflexivity.
Qed.

(** A text is a run of characters that satisfy [f] followed by nothing or
    by a character that does not. *)
Lemma span_run (f : ascii -> bool) (s : list ascii) :
  exists a b,
    s = a ++ b /\ Forall (fun x => f x = true) a
    /\ (b = [] \/ exists c b', b = c :: b' /\ f c = false).
Proof.
  induction s as [|x s IH].
  - exists [], []. auto.
  - destruct IH as (a & b & -> & Ha & Hb). destruct (f x) eqn:E.
    + exists (x :: a), b. auto.
    + exists [], (x :: a ++ b). repeat split; eauto.
Qed.

(** *** strtok *)

Lemma strspn_run (d : list ascii) (c : ascii) (X : block) :
  Forall (fun x => spec_delimiter x = true) d ->
  spec_delimiter c = false ->
  strspn SHELL_TOK_DELIM ((Some <$> d) ++ Some c :: X) = Some (length d).
Proof.
  intros Hd Hc. induction Hd as [|x d Hx _ IH].
  - cbn [fmap list_fmap app strspn]. rewrite spec_delimiter_in_delim, Hc.
    reflexivity.
  - rewrite fmap_cons. cbn [app strspn length].
    rewrite spec_delimiter_in_delim, Hx, IH. reflexivity.
Qed.

Lemma strcspn_run (t : list ascii) (c : ascii) (X : block) :
  Forall (fun x => spec_delimiter x = false) t ->
  Forall (fun x => x <> NUL) t ->
  c = NUL \/ spec_delimiter c = true ->
  strcspn SHELL_TOK_DELIM ((Some <$> t) ++ Some c :: X) = Some (length t).
Proof.
  intros Ht Hn Hc. induction Ht as [|x t Hx _ IH].
  - cbn [fmap list_fmap app strcspn]. rewrite spec_delimiter_in_delim.
    destruct Hc as [-> | ->]; [reflexivity|]. rewrite orb_true_r.
    reflexivity.
  - apply Forall_cons in Hn as [Hxn Hn].
    rewrite fmap_cons. cbn [app strcspn length].
    rewrite spec_delimiter_in_delim, Hx.
    destruct (Ascii.eqb_spec x NUL) as [?|_]; [contradiction|].
    cbn [orb]. rewrite IH by assumption. reflexivity.
Qed.

Lemma lookup_middle_app (A : block) (x : cell) (B : block) (n : nat) :
  n = length A -> (A ++ x :: B) !! n = Some x.
Proof. intros ->. apply list_lookup_middle. reflexivity. Qed.

Lemma strtok_none (pre : block) (d : list ascii) (post : block) :
  Forall (fun x => spec_delimiter x = true) d ->
  strtok Null SHELL_TOK_DELIM (pre ++ (Some <$> d) ++ Some NUL :: post)
         (length pre)
  = Some (Null, pre ++ (Some <$> d) ++ Some NUL :: post,
          length pre + length d).
Proof.
  intros Hd. unfold strtok.
  rewrite drop_app_length, (strspn_run d NUL post Hd eq_refl).
  cbn [base.mbind option_bind]. rewrite app_assoc.
  rewrite lookup_middle_app by (rewrite length_app, length_fmap; reflexivity).
  reflexivity.
Qed.

Lemma strtok_last (pre : block) (d t : list ascii) (post : block) :
  Forall (fun x => spec_delimiter x = true) d ->
  t <> [] ->
  Forall (fun x => spec_delimiter x = false) t ->
  Forall (fun x => x <> NUL) t ->
  strtok Null SHELL_TOK_DELIM
         (pre ++ (Some <$> d) ++ (Some <$> t) ++ Some NUL :: post)
         (length pre)
  = Some (Ptr (length pre + length d),
          pre ++ (Some <$> d) ++ (Some <$> t) ++ Some NUL :: post,
          length pre + length d + length t).
Proof.
  intros Hd Hne Ht Hn. unfold strtok.
  destruct t as [|x t]; [contradiction|].
  pose proof (Forall_inv Ht) as Hx. pose proof (Forall_inv Hn) as Hxn.
  cbn beta in Hx, Hxn.
  rewrite drop_app_length. rewrite !fmap_cons. cbn [app].
  rewrite (strspn_run d x _ Hd Hx). cbn [base.mbind option_bind].
  rewrite (app_assoc pre).
  rewrite lookup_middle_app by (rewrite length_app, length_fmap; reflexivity).
  destruct (Ascii.eqb_spec x NUL) as [?|_]; [contradiction|].
  replace (length pre + length d) with (length (pre ++ (Some <$> d)))
    by (rewrite length_app, length_fmap; reflexivity).
  rewrite drop_app_length.
  change (Some x :: (Some <$> t) ++ Some NUL :: post)
    with ((Some <$> x :: t) ++ Some NUL :: post).
  rewrite (strcspn_run (x :: t) NUL post Ht Hn (or_introl eq_refl)).
  cbn [base.mbind option_bind].
  rewrite (app_assoc (pre ++ (Some <$> d))).
  rewrite lookup_middle_app
    by (rewrite !length_app, !length_fmap; reflexivity).
  reflexivity.
Qed.

Lemma strtok_more (pre : block) (d t : list ascii) (c : ascii)
    (R : block) :
  Forall (fun x => spec_delimiter x = true) d ->
  t <> [] ->
  Forall (fun x => spec_delimiter x = false) t ->
  Forall (fun x => x <> NUL) t ->
  spec_delimiter c = true ->
  strtok Null SHELL_TOK_DELIM
         (pre ++ (Some <$> d) ++ (Some <$> t) ++ Some c :: R)
         (length pre)
  = Some (Ptr (length pre + length d),
          pre ++ (Some <$> d) ++ (Some <$> t) ++ Some NUL :: R,
          S (length pre + length d + length t)).
Proof.
  intros Hd Hne Ht Hn Hc. unfold strtok.
  destruct t as [|x t]; [contradiction|].
  pose proof (Forall_inv Ht) as Hx. pose proof (Forall_inv Hn) as Hxn.
  cbn beta in Hx, Hxn.
  rewrite drop_app_length. rewrite !fmap_cons. cbn [app].
  rewrite (strspn_run d x _ Hd Hx). cbn [base.mbind option_bind].
  rewrite !(app_assoc pre).
  rewrite lookup_middle_app by (rewrite length_app, length_fmap; reflexivity).
  destruct (Ascii.eqb_spec x NUL) as [?|_]; [contradiction|].
  replace (length pre + length d) with (length (pre ++ (Some <$> d)))
    by (rewrite length_app, length_fmap; reflexivity).
  rewrite drop_app_length.
  change (Some x :: (Some <$> t) ++ Some c :: R)
    with ((Some <$> x :: t) ++ Some c :: R).
  rewrite (strcspn_run (x :: t) c R Ht Hn (or_intror Hc)).
  cbn [base.mbind option_bind].
  rewrite (app_assoc (pre ++ (Some <$> d))).
  rewrite lookup_middle_app
    by (rewrite !length_app, !length_fmap; reflexivity).
  destruct (Ascii.eqb_spec c NUL) as [->|_]; [discriminate Hc|].
  replace (length (pre ++ (Some <$> d)) + length (x :: t))
    with (length ((pre ++ (Some <$> d)) ++ (Some <$> x :: t)) + 0)
    by (rewrite !length_app, !length_fmap; lia).
  rewrite insert_app_r. cbn [insert list_insert].
  rewrite Nat.add_0_r, <- !app_assoc. reflexivity.
Qed.

Lemma str_at_middle (A : block) (t : list ascii) (Y : block) :
  Forall (fun c => c <> NUL) t ->
  str_at (A ++ (Some <$> t) ++ Some NUL :: Y) (length A) = Some t.
Proof.
  intros Ht. unfold str_at. rewrite drop_app_length.
  apply c_str_app. exact Ht.
Qed.

(** What one call [strtok(NULL, SHELL_TOK_DELIM)] does when the text [s]
    is still to be scanned: no token is left in [s], or the next token [t]
    of [s] is returned and the scan resumes behind it. *)
Lemma strtok_spec (s : list ascii) (pre post : block) :
  Forall (fun c => c <> NUL) s ->
  (spec_tokens s = []
   /\ exists last',
       strtok Null SHELL_TOK_DELIM (pre ++ (Some <$> s) ++ Some NUL :: post)
              (length pre)
       = Some (Null, pre ++ (Some <$> s) ++ Some NUL :: post, last'))
  \/ (exists p t s' pre',
        spec_tokens s = t :: spec_tokens s'
        /\ length s' < length s
        /\ Forall (fun c => c <> NUL) s'
        /\ strtok Null SHELL_TOK_DELIM
                  (pre ++ (Some <$> s) ++ Some NUL :: post) (length pre)
           = Some (Ptr p, pre' ++ (Some <$> s') ++ Some NUL :: post,
                   length pre')
        /\ take (length pre) pre' = pre
        /\ length pre' + length s' = length pre + length s
        /\ (forall line' : block,
              take (length pre') line' = pre' ->
              drop (length pre' + length s') line' = Some NUL :: post ->
              str_at line' p = Some t)).
Proof.
  intros Hs.
  destruct (span_run spec_delimiter s) as (d & s1 & -> & Hd & Hs1).
  apply Forall_app in Hs as [Hdn Hs1n].
  destruct Hs1 as [-> | (c & s1' & -> & Hc)].
  { left. rewrite app_nil_r. split.
    - rewrite <- (app_nil_r d), spec_tokens_delims by exact Hd.
      reflexivity.
    - eexists. apply strtok_none. exact Hd. }
  right.
  destruct (span_run (fun x => negb (spec_delimiter x)) s1')
    as (t' & s2 & -> & Ht' & Hs2).
  set (t := c :: t').
  assert (Ht : Forall (fun x => spec_delimiter x = false) t).
  { constructor; [exact Hc|]. eapply Forall_impl; [exact Ht'|].
    intros x Hx. simpl in Hx. destruct (spec_delimiter x); auto; discriminate. }
  assert (Hne : t <> []) by discriminate.
  change (c :: t' ++ s2) with (t ++ s2) in *.
  apply Forall_app in Hs1n as [Htn Hs2n].
  destruct Hs2 as [-> | (c2 & s3 & -> & Hc2)].
  - exists (length pre + length d), t, [],
      (pre ++ (Some <$> d) ++ (Some <$> t)).
    rewrite app_nil_r. repeat split.
    + rewrite spec_tokens_delims by exact Hd.
      apply spec_tokens_last; assumption.
    + rewrite length_app. simpl. lia.
    + constructor.
    + rewrite fmap_app, <- !app_assoc.
      rewrite strtok_last by assumption.
      rewrite !length_app, !length_fmap, Nat.add_assoc. reflexivity.
    + apply take_app_length.
    + rewrite !length_app, !length_fmap. simpl. lia.
    + intros line' Htake Hdrop. rewrite Nat.add_0_r in Hdrop.
      rewrite <- (take_drop (length (pre ++ (Some <$> d) ++ (Some <$> t)))
                            line'), Htake, Hdrop.
      rewrite (app_assoc pre), <- (app_assoc (pre ++ (Some <$> d))).
      replace (length pre + length d) with (length (pre ++ (Some <$> d)))
        by (rewrite length_app, length_fmap; reflexivity).
      apply str_at_middle. exact Htn.
  - assert (Hc2' : spec_delimiter c2 = true)
      by (destruct (spec_delimiter c2); auto; discriminate).
    apply Forall_cons in Hs2n as [_ Hs3n].
    exists (length pre + length d), t, s3,
      (pre ++ (Some <$> d) ++ (Some <$> t) ++ [Some NUL]).
    repeat split.
    + rewrite spec_tokens_delims by exact Hd.
      apply spec_tokens_token; assumption.
    + rewrite !length_app. simpl. lia.
    + exact Hs3n.
    + rewrite !fmap_app, fmap_cons, <- !app_assoc. cbn [app].
      rewrite strtok_more by assumption.
      rewrite !length_app, !length_fmap. cbn [length app].
      do 2 f_equal. lia.
    + apply take_app_length.
    + rewrite !length_app, !length_fmap. simpl. lia.
    + intros line' Htake Hdrop.
      rewrite <- (take_drop
                    (length (pre ++ (Some <$> d) ++ (Some <$> t)
                             ++ [Some NUL])) line'), Htake.
      rewrite (app_assoc pre), <- !(app_assoc (pre ++ (Some <$> d))).
      replace (length pre + length d) with (length (pre ++ (Some <$> d)))
        by (rewrite length_app, length_fmap; reflexivity).
      rewrite <- (app_assoc (Some <$> t)). cbn [app].
      apply str_at_middle. exact Htn.
Qed.

Lemma shell_splitline_loop_round fuel p line last bufsize position tokens :
  shell_splitline_loop (S fuel) (Ptr p) line last bufsize position tokens
  = (tokens <- store tokens position (Ptr p) ;;
     position <- int_add position 1 ;;
     grown <- splitline_grow bufsize position tokens ;;
     match grown with
     | None => retM (None, line)
     | Some (bufsize, tokens) =>
         split_rest fuel Null line last bufsize position tokens
     end).
Proof. reflexivity. Qed.

Lemma shell_splitline_loop_null fuel line last bufsize position tokens :
  shell_splitline_loop fuel Null line last bufsize position tokens
  = (tokens <- store tokens position Null ;; retM (Some tokens, line)).
Proof. destruct fuel; reflexivity. Qed.

Lemma splitline_grow_ok bufsize q (tokens : list (option ptr)) w :
  heap_ok w ->
  length tokens = Z.to_nat bufsize ->
  (0 < q <= bufsize)%Z ->
  (bufsize < q + SHELL_TOK_BUFSIZE)%Z ->
  (q + SHELL_TOK_BUFSIZE <= INT_MAX)%Z ->
  exists bufsize' tokens' w',
    splitline_grow bufsize q tokens w = (Ret (Some (bufsize', tokens')), w')
    /\ length tokens' = Z.to_nat bufsize'
    /\ (q < bufsize')%Z
    /\ (bufsize' <= q + SHELL_TOK_BUFSIZE)%Z
    /\ take (Z.to_nat q) tokens' = take (Z.to_nat q) tokens
    /\ heap_ok w' /\ quiet w w' /\ w_stdin w' = w_stdin w.
Proof.
  intros Hheap Hlen Hq Hsize Hmax. unfold SHELL_TOK_BUFSIZE in *.
  unfold splitline_grow, SHELL_TOK_BUFSIZE.
  destruct (Z.geb_spec q bufsize) as [Hge|Hlt].
  - assert (Hb : (bufsize + 128 <= INT_MAX)%Z) by lia.
    rewrite (bindM_ret _ _ _ _ _ (int_add_ok bufsize 128 w Hb)).
    destruct (realloc_ok tokens (bufsize + 128) w Hheap)
      as (w' & E & Hheap' & Hq' & Hstdin).
    rewrite (bindM_ret _ _ _ _ _ E). unfold retM.
    eexists _, _, w'. split; [reflexivity|].
    repeat split; auto; try lia; try apply Hq'.
    + rewrite length_app, length_take, length_replicate. lia.
    + rewrite (take_ge tokens) by lia. rewrite take_app_le by lia.
      reflexivity.
  - unfold retM. exists bufsize, tokens, w.
    repeat split; auto; lia.
Qed.

Lemma strtok_ptr (p : nat) (delim : list ascii) (buf : block) (last : nat) :
  strtok (Ptr p) delim buf last = strtok Null delim buf p.
Proof. reflexivity. Qed.

Lemma split_rest_tokens (n : nat) :
  forall (s : list ascii), length s <= n ->
  Forall (fun c => c <> NUL) s ->
  forall (pre post : block) (fuel : nat) (sp : ptr) (last : nat)
         (bufsize position : Z) (tokens : list (option ptr))
         (done : list nat) (w : world),
    strtok sp SHELL_TOK_DELIM (pre ++ (Some <$> s) ++ Some NUL :: post) last
    = strtok Null SHELL_TOK_DELIM (pre ++ (Some <$> s) ++ Some NUL :: post)
             (length pre) ->
    length s <= fuel ->
    heap_ok w ->
    length tokens = Z.to_nat bufsize ->
    (0 <= position < bufsize)%Z ->
    (bufsize <= position + SHELL_TOK_BUFSIZE)%Z ->
    take (Z.to_nat position) tokens = (fun p => Some (Ptr p)) <$> done ->
    (position + Z.of_nat (length s) + SHELL_TOK_BUFSIZE <= INT_MAX)%Z ->
    exists ps tokens' line' w',
      split_rest fuel sp (pre ++ (Some <$> s) ++ Some NUL :: post) last
                 bufsize position tokens w
      = (Ret (Some tokens', line'), w')
      /\ take (length (done ++ ps)) tokens'
         = (fun p => Some (Ptr p)) <$> (done ++ ps)
      /\ tokens' !! length (done ++ ps) = Some (Some Null)
      /\ Forall2 (fun p t => str_at line' p = Some t) ps (spec_tokens s)
      /\ take (length pre) line' = pre
      /\ drop (length pre + length s) line' = Some NUL :: post
      /\ heap_ok w' /\ quiet w w' /\ w_stdin w' = w_stdin w.
Proof.
  induction n as [|n IH];
    intros s Hn Hs pre post fuel sp last bufsize position tokens done w
           Hsp Hfuel Hheap Hlen Hpos Hsize Htake Hmax.
  all: assert (Hd : length done = Z.to_nat position)
    by (apply (f_equal length) in Htake;
        rewrite length_take, length_fmap in Htake; lia).
  all: assert (Hin : (0 <= position < Z.of_nat (length tokens))%Z) by lia.
  all: unfold split_rest, strtok_m; rewrite Hsp.
  all: destruct (strtok_spec s pre post Hs)
    as [[Hnone [last' E]]
       |(p & t & s' & pre' & Hsplit & Hshort & Hs' & E & Hpre & Hlens & Hstr)].
  1, 3: rewrite E; unfold bindM at 1; rewrite shell_splitline_loop_null;
    rewrite (bindM_ret _ _ _ _ _ (store_ok tokens position Null w Hin));
    unfold retM; exists [], (<[Z.to_nat position := Some Null]> tokens),
      (pre ++ (Some <$> s) ++ Some NUL :: post), w;
    rewrite app_nil_r, Hnone, Hd; repeat split; auto;
    [ rewrite take_insert_ge by lia; exact Htake
    | apply list_lookup_insert_eq; lia
    | apply take_app_length
    | rewrite app_assoc;
      replace (length pre + length s) with (length (pre ++ (Some <$> s)))
        by (rewrite length_app, length_fmap; reflexivity);
      apply drop_app_length ].
  - lia.
  - rewrite E. unfold bindM at 1.
    destruct fuel as [|fuel]; [lia|].
    rewrite shell_splitline_loop_round.
    rewrite (bindM_ret _ _ _ _ _ (store_ok tokens position (Ptr p) w Hin)).
    assert (Hp1 : (position + 1 <= INT_MAX)%Z)
      by (unfold SHELL_TOK_BUFSIZE in *; lia).
    rewrite (bindM_ret _ _ _ _ _ (int_add_ok position 1 w Hp1)).
    set (tokens1 := <[Z.to_nat position := Some (Ptr p)]> tokens).
    destruct (splitline_grow_ok bufsize (position + 1) tokens1 w)
      as (bufsize' & tokens2 & w2 & Eg & Hlen2 & Hpos2 & Hsize2 & Htake2
          & Hheap2 & Hq2 & Hstdin2); auto; try lia.
    { unfold tokens1. rewrite length_insert. exact Hlen. }
    rewrite (bindM_ret _ _ _ _ _ Eg).
    destruct (IH s' ltac:(lia) Hs' pre' post fuel Null (length pre')
                 bufsize' (position + 1)%Z tokens2 (done ++ [p]) w2)
      as (ps & tokens3 & line3 & w3 & E3 & Ht3 & Hn3 & Hf3 & Hp3 & Hd3
          & Hh3 & Hq3 & Hs3); auto; try lia.
    { rewrite Htake2. unfold tokens1.
      replace (Z.to_nat (position + 1)) with (S (Z.to_nat position)) by lia.
      rewrite (take_S_r _ _ (Some (Ptr p)))
        by (apply list_lookup_insert_eq; lia).
      rewrite take_insert_ge by lia. rewrite Htake, fmap_app. reflexivity. }
    exists (p :: ps), tokens3, line3, w3.
    rewrite <- app_assoc in Ht3, Hn3. cbn [app] in Ht3, Hn3.
    rewrite Hsplit. repeat split; auto.
    all: try (unfold quiet in Hq2, Hq3; intuition congruence).
    transitivity (take (length pre) (take (length pre') line3)).
    + rewrite take_take. f_equal. lia.
    + rewrite Hp3. exact Hpre.
Qed.

Lemma spec_pieces_no_delimiter (s : list ascii) :
  Forall (Forall (fun c => spec_delimiter c = false)) (spec_pieces s).
Proof.
  induction s as [|c s IH]; simpl.
  - repeat constructor.
  - destruct (spec_delimiter c) eqn:E.
    + constructor; [constructor|exact IH].
    + destruct (spec_pieces s) as [|f fs]; [repeat constructor; exact E|].
      apply Forall_cons in IH as [Hf Hfs].
      constructor; [constructor; assumption|exact Hfs].
Qed.

Lemma spec_tokens_sound (s : list ascii) :
  Forall (fun t => t <> [] /\ Forall (fun c => spec_delimiter c = false) t)
         (spec_tokens s).
Proof.
  apply Forall_forall. intros t Ht. unfold spec_tokens in Ht.
  apply list_elem_of_filter in Ht as [Hne Hin]. split; [exact Hne|].
  pose proof (spec_pieces_no_delimiter s) as H.
  rewrite Forall_forall in H. apply H. exact Hin.
Qed.

Lemma arg_strings_argv_of (line : block) (ps : list nat)
    (ts : list (list ascii)) (rest : list (option ptr)) :
  Forall2 (fun p t => str_at line p = Some t) ps ts ->
  arg_strings line (argv_of ps rest) = Some (string_of_list_ascii <$> ts).
Proof.
  induction 1 as [|p t ps ts Hp _ IH]; [reflexivity|].
  unfold argv_of in *. rewrite !fmap_cons. cbn [app arg_strings].
  rewrite Hp, IH. reflexivity.
Qed.

Lemma shell_splitline_tokens_gen (s : list ascii) (post : block) (w : world) :
  Forall (fun c => c <> NUL) s ->
  heap_ok w ->
  (Z.of_nat (length s) + SHELL_TOK_BUFSIZE <= INT_MAX)%Z ->
  exists ps rest line' w',
    shell_splitline ((Some <$> s) ++ Some NUL :: post) w
    = (Ret (Some (argv_of ps rest), line'), w')
    /\ Forall2 (fun p t => str_at line' p = Some t) ps (spec_tokens s)
    /\ length line' = length ((Some <$> s) ++ Some NUL :: post)
    /\ heap_ok w' /\ quiet w w' /\ w_stdin w' = w_stdin w.
Proof.
  intros Hs Hheap Hmax. unfold shell_splitline.
  destruct (malloc_ok (A := ptr) SHELL_TOK_BUFSIZE w Hheap)
    as (w1 & E & Hheap1 & Hq1 & Hin1).
  rewrite (bindM_ret _ _ _ _ _ E).
  set (line := (Some <$> s) ++ Some NUL :: post).
  destruct (split_rest_tokens (length s) s (Nat.le_refl _) Hs [] post
              (length line) (Ptr 0) 0 SHELL_TOK_BUFSIZE 0%Z
              (replicate (Z.to_nat SHELL_TOK_BUFSIZE) None) [] w1)
    as (ps & tokens & line' & w' & E' & Ht & Hn & Hf & _ & Hd & Hh & Hq & Hi);
    auto; try apply length_replicate;
    try (unfold SHELL_TOK_BUFSIZE in *; lia).
  { unfold line. rewrite length_app, length_fmap. lia. }
  cbn [app length] in Ht, Hn, Hd, E'. fold line in E'.
  exists ps, (drop (S (length ps)) tokens), line', w'.
  unfold argv_of. rewrite <- Ht, (take_drop_middle _ _ _ Hn).
  repeat match goal with |- _ /\ _ => split end; auto.
  - apply (f_equal length) in Hd. rewrite length_drop in Hd.
    unfold line. rewrite length_app, length_fmap. simpl in *. lia.
  - apply (quiet_trans _ _ _ Hq1 Hq).
  - congruence.
Qed.

(** C7.  For a line buffer holding the text [s] and its NUL, when every
    allocation succeeds and the text is short enough for the [int]
    counters, shell_splitline returns an array of pointers into the line
    block followed by the NULL marker, and the strings they point to are,
    in order, the tokens of [s]: the pieces of [s] between characters of
    the delimiter set (space, tab, carriage return, newline, bell) with
    the empty pieces dropped.  No token is empty and none holds a
    delimiter; the line block keeps its length and nothing is printed. *)
Theorem shell_splitline_tokens (s : list ascii) (post : block) (w : world) :
  Forall (fun c => c <> NUL) s ->
  heap_ok w ->
  (Z.of_nat (length s) + SHELL_TOK_BUFSIZE <= INT_MAX)%Z ->
  exists ps rest line' w',
    shell_splitline ((Some <$> s) ++ Some NUL :: post) w
    = (Ret (Some (argv_of ps rest), line'), w')
    /\ Forall2 (fun p t => str_at line' p = Some t) ps (spec_tokens s)
    /\ arg_strings line' (argv_of ps rest)
       = Some (string_of_list_ascii <$> spec_tokens s)
    /\ length line' = length ((Some <$> s) ++ Some NUL :: post)
    /\ Forall (fun t => t <> [] /\ Forall (fun c => spec_delimiter c = false) t)
              (spec_tokens s)
    /\ w_stdout w' = w_stdout w /\ w_stderr w' = w_stderr w
    /\ w_stdin w' = w_stdin w.
Proof.
  intros Hs Hheap Hmax.
  destruct (shell_splitline_tokens_gen s post w Hs Hheap Hmax)
    as (ps & rest & line' & w' & E & Hf & Hl & _ & Hq & Hi).
  exists ps, rest, line', w'.
  split; [exact E|]. split; [exact Hf|].
  split; [apply arg_strings_argv_of; exact Hf|].
  split; [exact Hl|]. split; [apply spec_tokens_sound|].
  split; [apply Hq|]. split; [apply Hq|]. exact Hi.
Qed.

(** *** The "exit" round (C3) *)

Lemma bindM_retM {A} (m : M A) (w : world) : bindM m retM w = m w.
Proof. unfold bindM, retM. destruct (m w) as [[a| | |] w']; reflexivity. Qed.


Lemma shell_prompt_keeps w :
  w_wait (snd (shell_prompt w)) = w_wait w
  /\ w_globals (snd (shell_prompt w)) = w_globals w.
Proof.
  unfold shell_prompt, bindM, getenv, printf, retM.
  destruct (w_env w !! "PWD") as [d|]; simpl; [repeat split|].
  unfold getcwd. destruct (w_cwd w) as [d|] eqn:E; simpl;
    [|repeat split; auto].
  destruct (_ <=? _)%Z; simpl; repeat split; auto.
Qed.




(** *** Further properties of the process executor *)

Lemma shell_fork_child_gen main argc argv forks w :
  w_fork w = ForkChild :: forks ->
  shell_fork main argc argv w
  = match main argc argv (set_fork forks w) with
    | (Ret rc, w') => (Exited rc, w')
    | (Exited rc, w') => (Exited rc, w')
    | (Hang, w') => (Hang, w')
    | (Undef, w') => (Undef, w')
    end.
Proof.
  intros Hfork. unfold shell_fork, bindM at 1, sys_fork. rewrite Hfork.
  cbn [Z.eqb]. unfold bindM, exit.
  destruct (main argc argv (set_fork forks w)) as [[rc|rc| |] w'];
    reflexivity.
Qed.

(** X1.  In the child (sys_fork returned 0) shell_fork runs the command
    and ends the process with the command's return value as exit code; it
    never returns to its caller there, whatever the command does. *)
Theorem shell_fork_child (main : main_t) (argc : Z) (argv : list string)
    (forks : list fork_result) (w : world) :
  w_fork w = ForkChild :: forks ->
  (forall rc w', main argc argv (set_fork forks w) = (Ret rc, w') ->
     shell_fork main argc argv w = (Exited rc, w'))
  /\ (forall a, fst (shell_fork main argc argv w) <> Ret a).
Proof.
  intros Hfork. rewrite (shell_fork_child_gen main argc argv forks w Hfork).
  split.
  - intros rc w' ->. reflexivity.
  - intros a. destruct (main argc argv (set_fork forks w)) as [[rc|rc| |] w'];
      discriminate.
Qed.

(** X2.  sys_waitpid's return value is not looked at and [status] starts
    as 0: when the first sys_waitpid fails, shell_fork stops waiting at
    once and returns 0, the value for a child that exited with success. *)
Theorem shell_fork_wait_error (main : main_t) (argc : Z)
    (argv : list string) (pid e : Z) (forks : list fork_result)
    (rest : list wait_result) (w : world) :
  w_fork w = ForkParent pid :: forks ->
  (0 < pid)%Z ->
  w_wait w = WaitError e :: rest ->
  shell_fork main argc argv w
  = (Ret 0%Z, set_wait rest (set_errno e (set_fork forks w))).
Proof.
  intros Hfork Hpid Hwait.
  unfold shell_fork, bindM, sys_fork. rewrite Hfork.
  destruct (Z.eqb_spec pid 0); [lia|].
  destruct (Z.ltb_spec pid 0); [lia|].
  simpl. rewrite Hwait. reflexivity.
Qed.

(** X3.  When sys_fork fails, shell_fork does not run the command and does
    not wait: it writes "fork: <reason>" to standard error and returns -1,
    and nothing else changes; the result is the same for every command. *)
Theorem shell_fork_failure (main main' : main_t) (argc : Z)
    (argv : list string) (e : Z) (forks : list fork_result) (w : world) :
  w_fork w = ForkError e :: forks ->
  shell_fork main argc argv w
  = (Ret (-1)%Z,
     set_stderr (w_stderr w +:+ "fork: " +:+ strerror e +:+ nl)
                (set_errno e (set_fork forks w)))
  /\ shell_fork main' argc argv w = shell_fork main argc argv w.
Proof.
  intros Hfork. unfold shell_fork, bindM, sys_fork. rewrite Hfork.
  split; reflexivity.
Qed.

(** *** Start-up and help *)

(** X4.  Before its loop shell_loop prints the banner and gives HOME and
    PWD the value "/" when they are not set; a value already set is kept
    and no other variable changes.  The first prompt therefore shows the
    value of PWD, "/" by default, and getcwd is not asked. *)
Theorem shell_loop_startup (w : world) :
  exists w0,
    (forall rounds, shell_loop rounds w = shell_loop_from rounds 1 w0)
    /\ w_stdout w0 = w_stdout w +:+ banner
    /\ w_env w0 !! "HOME" = Some (default "/" (w_env w !! "HOME"))
    /\ w_env w0 !! "PWD" = Some (default "/" (w_env w !! "PWD"))
    /\ (forall k, k <> "HOME" -> k <> "PWD" -> w_env w0 !! k = w_env w !! k)
    /\ prompt_text w0 = default "/" (w_env w !! "PWD") +:+ "$ "
    /\ w_stdin w0 = w_stdin w /\ w_stderr w0 = w_stderr w
    /\ w_fork w0 = w_fork w /\ w_heap w0 = w_heap w.
Proof.
  set (w1 := set_stdout (w_stdout w +:+ banner) w).
  set (env1 := match w_env w !! "HOME" with
               | Some _ => w_env w
               | None => <["HOME" := "/"]> (w_env w)
               end).
  set (env2 := match env1 !! "PWD" with
               | Some _ => env1
               | None => <["PWD" := "/"]> env1
               end).
  assert (Hpwd1 : env1 !! "PWD" = w_env w !! "PWD").
  { unfold env1. destruct (w_env w !! "HOME"); [reflexivity|].
    apply lookup_insert_ne. discriminate. }
  assert (Hpwd : env2 !! "PWD" = Some (default "/" (w_env w !! "PWD"))).
  { unfold env2. rewrite <- Hpwd1.
    destruct (env1 !! "PWD") as [d|] eqn:E; simpl; [exact E|].
    apply lookup_insert_eq. }
  exists (set_env env2 w1).
  repeat match goal with |- _ /\ _ => split end; try reflexivity.
  - intros rounds. unfold shell_loop, bindM, printf, setenv_keep, banner.
    simpl. unfold env2, env1, w1, banner.
    rewrite !append_assoc.
    destruct (w_env w !! "HOME") as [h|] eqn:Eh; simpl.
    + destruct (w_env w !! "PWD") as [d|] eqn:Ed; simpl; reflexivity.
    + rewrite lookup_insert_ne by discriminate.
      destruct (w_env w !! "PWD") as [d|] eqn:Ed; simpl; reflexivity.
  - simpl. unfold env2.
    assert (H1 : env1 !! "HOME" = Some (default "/" (w_env w !! "HOME"))).
    { unfold env1. destruct (w_env w !! "HOME") as [h|] eqn:E; simpl;
        [exact E|]. apply lookup_insert_eq. }
    destruct (env1 !! "PWD"); [exact H1|].
    rewrite lookup_insert_ne by discriminate. exact H1.
  - exact Hpwd.
  - intros k Hh Hp. simpl. unfold env2, env1.
    destruct (w_env w !! "HOME") as [h|] eqn:Eh.
    + destruct (w_env w !! "PWD"); [reflexivity|].
      rewrite lookup_insert_ne by congruence. reflexivity.
    + rewrite (lookup_insert_ne (w_env w) "HOME" "PWD") by discriminate.
      destruct (w_env w !! "PWD").
      * rewrite lookup_insert_ne by congruence. reflexivity.
      * rewrite !lookup_insert_ne by congruence. reflexivity.
  - unfold prompt_text. simpl. rewrite Hpwd. reflexivity.
Qed.

Lemma help_lines_printed (cmds : list shell_command_t) (w : world) :
  (fix each (cmds : list shell_command_t) : M unit :=
     match cmds with
     | [] => retM tt
     | cmd :: cmds => printf ("  " +:+ name cmd +:+ nl) ;;; each cmds
     end) cmds w
  = (Ret tt, set_stdout (w_stdout w +:+ help_lines cmds) w).
Proof.
  revert w. induction cmds as [|cmd cmds IH]; intros w.
  - unfold retM. cbn [help_lines]. rewrite append_nil_r.
    destruct w; reflexivity.
  - unfold bindM, printf. rewrite IH. cbn [help_lines]. simpl.
    rewrite !append_assoc. reflexivity.
Qed.

Lemma main_help_gen (argc : Z) (argv : list string) (w : world) :
  main_help argc argv w
  = (Ret 0%Z,
     set_stdout (w_stdout w +:+ "Available commands are:" +:+ nl
                 +:+ help_lines commands) w).
Proof.
  unfold main_help. unfold bindM at 1, printf at 1.
  unfold bindM at 1. rewrite help_lines_printed. unfold retM. simpl.
  rewrite !append_assoc. reflexivity.
Qed.

(** X5.  main_help ignores its arguments: it prints the line "Available
    commands are:" and then one line per entry of the command table, in
    table order and with every entry's name once, returns 0 and changes
    nothing but standard output.  The names listed are the names of the
    table, which holds no name twice. *)
Theorem main_help_lists_table (argc : Z) (argv : list string) (w : world) :
  main_help argc argv w
  = (Ret 0%Z,
     set_stdout (w_stdout w +:+ "Available commands are:" +:+ nl
                 +:+ help_lines commands) w)
  /\ NoDup (name <$> commands).
Proof.
  split.
  - apply main_help_gen.
  - apply (bool_decide_unpack _). vm_compute. exact I.
Qed.

(** *** Further properties of the dispatcher *)

Lemma shell_execute_scan_found cmds line p ps rest a0 args argc cmd w :
  str_at line p = Some a0 ->
  arg_strings line (argv_of (p :: ps) rest) = Some args ->
  Forall (fun cmd => Forall (fun c => c <> NUL)
                            (list_ascii_of_string (name cmd))) cmds ->
  lookup_command cmds (string_of_list_ascii a0) = Some cmd ->
  shell_execute_scan cmds line argc (argv_of (p :: ps) rest) w
  = if negb (fork cmd =? 0)%Z
    then shell_fork (call (main cmd)) argc args w
    else call (main cmd) argc args w.
Proof.
  intros Ha0 Hargs Hnul Hfind.
  induction Hnul as [|c cmds Hc _ IH]; [discriminate Hfind|].
  cbn [shell_execute_scan]. unfold bindM at 1, arg0 at 1.
  unfold argv_of at 1. cbn [fmap list_fmap app]. rewrite Ha0.
  unfold lookup_command in Hfind. cbn [List.find] in Hfind.
  destruct (String.eqb_spec (name c) (string_of_list_ascii a0)) as [E|E].
  - injection Hfind as <-.
    rewrite E, list_ascii_of_string_of_list_ascii, strcmp_refl.
    cbn [Z.eqb negb]. rewrite Hargs. reflexivity.
  - destruct (Z.eqb_spec (strcmp a0 (list_ascii_of_string (name c))) 0)
      as [Heq|_]; cbn [negb]; [|exact (IH Hfind)].
    exfalso. apply E. apply strcmp_zero in Heq; auto.
    + rewrite Heq. symmetry. apply string_of_list_ascii_of_string.
    + apply c_str_no_NUL with (b := drop p line). exact Ha0.
Qed.

Lemma names_no_NUL :
  Forall (fun cmd => Forall (fun c => c <> NUL)
                            (list_ascii_of_string (name cmd))) commands.
Proof. apply Forall_forall. intros cmd. apply list_ascii_no_NUL_name. Qed.

Lemma shell_execute_dispatch_gen line p ps rest t ts cmd w :
  Forall2 (fun p t => str_at line p = Some t) (p :: ps) (t :: ts) ->
  (Z.of_nat (length (p :: ps)) <= INT_MAX)%Z ->
  lookup_command commands (string_of_list_ascii t) = Some cmd ->
  shell_execute line (argv_of (p :: ps) rest) w
  = if negb (fork cmd =? 0)%Z
    then shell_fork (call (main cmd)) (Z.of_nat (length (p :: ps)))
                    (string_of_list_ascii <$> (t :: ts)) w
    else call (main cmd) (Z.of_nat (length (p :: ps)))
              (string_of_list_ascii <$> (t :: ts)) w.
Proof.
  intros Hf Hlen Hfind. unfold shell_execute, shell_execute_in.
  assert (Hl : (0 + Z.of_nat (length (p :: ps)) <= INT_MAX)%Z) by lia.
  rewrite (bindM_ret _ _ _ _ _
             (count_args_argv_of (p :: ps) rest 0 w Hl)).
  destruct (Z.eqb_spec (0 + Z.of_nat (length (p :: ps))) 0) as [E|_];
    [simpl in E; lia|].
  rewrite Z.add_0_l.
  apply (shell_execute_scan_found commands line p ps rest t).
  - apply Forall2_cons_1 in Hf as [Hp _]. exact Hp.
  - apply arg_strings_argv_of. exact Hf.
  - exact names_no_NUL.
  - exact Hfind.
Qed.

(** X6.  For an argument vector whose first token is the name of an
    entry of the command table, shell_execute takes the first entry with
    that name and calls its function with argc the number of tokens and
    argv the tokens: directly, in the shell's own process, when the
    entry's fork flag is 0, and through shell_fork otherwise.  It prints
    nothing itself. *)
Theorem shell_execute_dispatch (line : block) (p : nat) (ps : list nat)
    (rest : list (option ptr)) (t : list ascii) (ts : list (list ascii))
    (cmd : shell_command_t) (w : world) :
  Forall2 (fun p t => str_at line p = Some t) (p :: ps) (t :: ts) ->
  (Z.of_nat (length (p :: ps)) <= INT_MAX)%Z ->
  lookup_command commands (string_of_list_ascii t) = Some cmd ->
  (fork cmd = 0%Z ->
   shell_execute line (argv_of (p :: ps) rest) w
   = call (main cmd) (Z.of_nat (length (t :: ts)))
          (string_of_list_ascii <$> (t :: ts)) w)
  /\ (fork cmd <> 0%Z ->
      shell_execute line (argv_of (p :: ps) rest) w
      = shell_fork (call (main cmd)) (Z.of_nat (length (t :: ts)))
                   (string_of_list_ascii <$> (t :: ts)) w).
Proof.
  intros Hf Hlen Hfind.
  rewrite (shell_execute_dispatch_gen line p ps rest t ts cmd w Hf Hlen Hfind).
  rewrite (Forall2_length _ _ _ Hf).
  split; intros Hk.
  - rewrite Hk. reflexivity.
  - destruct (Z.eqb_spec (fork cmd) 0); [contradiction|]. reflexivity.
Qed.

(** *** Rounds of the loop *)

Lemma shell_loop_body_line_gen evs rest w :
  w_stdin w = evs ++ RdByte NL :: rest ->
  Forall line_event evs ->
  Forall (fun c => c <> NUL) (delivered evs) ->
  heap_ok w ->
  (Z.of_nat (length (delivered evs)) + SHELL_LINE_BUFSIZE <= INT_MAX)%Z ->
  exists ps rest' line' w1,
    shell_loop_body w = shell_execute line' (argv_of ps rest') w1
    /\ Forall2 (fun p t => str_at line' p = Some t) ps
               (spec_tokens (delivered evs))
    /\ w_stdout w1 = w_stdout w +:+ prompt_text w
    /\ w_stdin w1 = rest
    /\ w_stderr w1 = w_stderr w
    /\ w_fork w1 = w_fork w /\ w_wait w1 = w_wait w
    /\ w_env w1 = w_env w /\ w_cwd w1 = w_cwd w
    /\ w_globals w1 = w_globals w
    /\ w_bufmode w1 = IOLBF.
Proof.
  intros Hin Hevs Hnul Hheap Hmax.
  destruct (shell_prompt_prints w) as (Hp & Ho & Hi & Hh & He & Hf & Hv & Hc).
  destruct (shell_prompt_keeps w) as (Hw & Hg).
  destruct (shell_prompt w) as [r w0] eqn:E0. simpl in *. subst r.
  set (w0' := set_bufmode IONBF w0).
  destruct (shell_readline_line_gen evs rest w0')
    as (buffer & w2 & E2 & Ht2 & Hn2 & Hs2 & Hh2 & Hq2); auto.
  { unfold w0'. simpl. rewrite Hi. exact Hin. }
  { unfold heap_ok, w0'. simpl. rewrite Hh. exact Hheap. }
  set (w2' := set_bufmode IOLBF w2).
  rewrite <- (take_drop_middle _ _ _ Hn2), Ht2 in E2.
  destruct (shell_splitline_tokens_gen (delivered evs)
              (drop (S (length (delivered evs))) buffer) w2')
    as (ps & rest' & line' & w3 & E3 & Hf3 & _ & _ & Hq3 & Hi3); auto.
  { unfold SHELL_TOK_BUFSIZE, SHELL_LINE_BUFSIZE in *. lia. }
  exists ps, rest', line', w3. split.
  - unfold shell_loop_body.
    rewrite (bindM_ret _ _ _ _ _ E0). unfold bindM at 1, setvbuf at 1.
    fold w0'. rewrite (bindM_ret _ _ _ _ _ E2).
    unfold bindM at 1, setvbuf at 1. fold w2'.
    rewrite (bindM_ret _ _ _ _ _ E3).
    apply bindM_retM.
  - unfold quiet in Hq2, Hq3. unfold w2', w0' in *. simpl in *.
    repeat match goal with |- _ /\ _ => split end;
      intuition congruence.
Qed.

(** X7.  A round of the loop whose reads deliver a line and its newline
    prints the prompt, reads the line and then runs shell_execute on an
    argument vector whose strings are exactly the tokens of that line:
    the round's outcome is that of shell_execute.  Up to that call only
    standard output (the prompt) and the pending input have changed, and
    stdout is line buffered again. *)
Theorem shell_loop_body_line (evs rest : list read_result) (w : world) :
  w_stdin w = evs ++ RdByte NL :: rest ->
  Forall line_event evs ->
  Forall (fun c => c <> NUL) (delivered evs) ->
  heap_ok w ->
  (Z.of_nat (length (delivered evs)) + SHELL_LINE_BUFSIZE <= INT_MAX)%Z ->
  exists ps rest' line' w1,
    shell_loop_body w = shell_execute line' (argv_of ps rest') w1
    /\ arg_strings line' (argv_of ps rest')
       = Some (string_of_list_ascii <$> spec_tokens (delivered evs))
    /\ w_stdout w1 = w_stdout w +:+ prompt_text w
    /\ w_stdin w1 = rest
    /\ w_stderr w1 = w_stderr w
    /\ w_fork w1 = w_fork w /\ w_wait w1 = w_wait w
    /\ w_env w1 = w_env w /\ w_cwd w1 = w_cwd w
    /\ w_globals w1 = w_globals w
    /\ w_bufmode w1 = IOLBF.
Proof.
  intros Hin Hevs Hnul Hheap Hmax.
  destruct (shell_loop_body_line_gen evs rest w Hin Hevs Hnul Hheap Hmax)
    as (ps & rest' & line' & w1 & E & Hf & H).
  exists ps, rest', line', w1.
  split; [exact E|]. split; [|exact H].
  apply arg_strings_argv_of. exact Hf.
Qed.

Lemma spec_tokens_length (s : list ascii) :
  length (spec_tokens s) <= S (length s).
Proof.
  unfold spec_tokens. etransitivity; [apply length_filter|].
  induction s as [|c s IH]; simpl; [lia|].
  destruct (spec_delimiter c); simpl; [lia|].
  destruct (spec_pieces s); simpl in *; lia.
Qed.

Lemma delivered_bytes (l : list ascii) : delivered (RdByte <$> l) = l.
Proof.
  induction l as [|c l IH]; [reflexivity|].
  rewrite fmap_cons. cbn [delivered]. rewrite IH. reflexivity.
Qed.

Lemma spec_tokens_blank (d : list ascii) :
  Forall (fun c => spec_delimiter c = true) d -> spec_tokens d = [].
Proof.
  intros Hd. rewrite <- (app_nil_r d), spec_tokens_delims by exact Hd.
  reflexivity.
Qed.

(** X8.  A round that reads a blank line (no byte, or only spaces, tabs,
    carriage returns and bells before the newline) prints the prompt and
    nothing else: no command is looked up or run, sys_fork is not called,
    and the round's exit code is -1. *)
Theorem shell_loop_body_blank (d : list ascii) (rest : list read_result)
    (w : world) :
  w_stdin w = (RdByte <$> d) ++ RdByte NL :: rest ->
  Forall (fun c => spec_delimiter c = true /\ c <> NL) d ->
  heap_ok w ->
  (Z.of_nat (length d) + SHELL_LINE_BUFSIZE <= INT_MAX)%Z ->
  exists w1,
    shell_loop_body w = (Ret (-1)%Z, w1)
    /\ w_stdout w1 = w_stdout w +:+ prompt_text w
    /\ w_stdin w1 = rest
    /\ w_stderr w1 = w_stderr w
    /\ w_fork w1 = w_fork w /\ w_wait w1 = w_wait w
    /\ w_env w1 = w_env w /\ w_cwd w1 = w_cwd w
    /\ w_globals w1 = w_globals w.
Proof.
  intros Hin Hd Hheap Hmax.
  pose proof (delivered_bytes d) as Hdel.
  assert (Hd1 : Forall (fun c => spec_delimiter c = true) d)
    by (eapply Forall_impl; [exact Hd|]; intros c [H _]; exact H).
  assert (Hev : Forall line_event (RdByte <$> d)).
  { apply Forall_fmap. eapply Forall_impl; [exact Hd|].
    intros c [_ H]. exact H. }
  assert (Hnul : Forall (fun c => c <> NUL) (delivered (RdByte <$> d))).
  { rewrite Hdel. eapply Forall_impl; [exact Hd1|].
    intros c. apply spec_delimiter_NUL. }
  rewrite <- Hdel in Hmax.
  destruct (shell_loop_body_line_gen (RdByte <$> d) rest w Hin Hev Hnul
              Hheap Hmax)
    as (ps & rest' & line' & w1 & E & Hf & H).
  rewrite Hdel, spec_tokens_blank in Hf by exact Hd1.
  apply Forall2_nil_inv_r in Hf as ->.
  exists w1. rewrite E. unfold shell_execute.
  rewrite shell_execute_in_empty.
  split; [reflexivity|]. intuition.
Qed.

(** X9.  A round that reads a line whose first token names no entry of
    the command table prints the prompt and then "<token>: command not
    found"; nothing else changes, sys_fork is not called, and the round's
    exit code is -1. *)
Theorem shell_loop_body_unknown (evs rest : list read_result)
    (t : list ascii) (ts : list (list ascii)) (w : world) :
  w_stdin w = evs ++ RdByte NL :: rest ->
  Forall line_event evs ->
  Forall (fun c => c <> NUL) (delivered evs) ->
  heap_ok w ->
  (Z.of_nat (length (delivered evs)) + SHELL_LINE_BUFSIZE <= INT_MAX)%Z ->
  spec_tokens (delivered evs) = t :: ts ->
  string_of_list_ascii t ∉ (name <$> commands) ->
  exists w1,
    shell_loop_body w = (Ret (-1)%Z, w1)
    /\ w_stdout w1
       = w_stdout w +:+ prompt_text w +:+ string_of_list_ascii t
         +:+ ": command not found" +:+ nl
    /\ w_stdin w1 = rest
    /\ w_stderr w1 = w_stderr w
    /\ w_fork w1 = w_fork w /\ w_wait w1 = w_wait w
    /\ w_env w1 = w_env w /\ w_cwd w1 = w_cwd w
    /\ w_globals w1 = w_globals w.
Proof.
  intros Hin Hevs Hnul Hheap Hmax Htok Hnot.
  destruct (shell_loop_body_line_gen evs rest w Hin Hevs Hnul Hheap Hmax)
    as (ps & rest' & line' & w1 & E & Hf & Ho & H).
  rewrite Htok in Hf.
  apply Forall2_cons_inv_r in Hf as (p & ps' & Hp & Hps & ->).
  assert (Hlen : (Z.of_nat (length (p :: ps')) <= INT_MAX)%Z).
  { pose proof (Forall2_length _ _ _ Hps) as Hl1.
    pose proof (f_equal length Htok) as Hl. cbn [length] in Hl.
    pose proof (spec_tokens_length (delivered evs)) as Hb.
    unfold SHELL_LINE_BUFSIZE, INT_MAX in *. cbn [length]. lia. }
  exists (set_stdout (w_stdout w1 +:+ string_of_list_ascii t
                      +:+ ": command not found" +:+ nl) w1).
  rewrite E, (shell_execute_not_found_gen line' p ps' rest' t w1 Hp Hlen Hnot).
  split; [reflexivity|]. simpl. rewrite Ho, !append_assoc.
  split; [reflexivity|]. intuition.
Qed.

(** *** Further properties of the line reader *)

Lemma shell_readline_loop_run evs :
  Forall line_event evs ->
  forall rest bufsize position buffer done w,
    heap_ok w ->
    length buffer = Z.to_nat bufsize ->
    (0 <= position < bufsize)%Z ->
    (bufsize <= position + SHELL_LINE_BUFSIZE)%Z ->
    take (Z.to_nat position) buffer = Some <$> done ->
    (position + Z.of_nat (length (delivered evs)) + SHELL_LINE_BUFSIZE
     <= INT_MAX)%Z ->
    exists bufsize' position' buffer' w',
      shell_readline_loop (evs ++ rest) bufsize position buffer w
      = shell_readline_loop rest bufsize' position' buffer' w'
      /\ heap_ok w' /\ quiet w w'.
Proof.
  induction 1 as [|ev evs Hev _ IH];
    intros rest bufsize position buffer done w Hheap Hlen Hpos Hsize
           Htake Hmax.
  - exists bufsize, position, buffer, w. split; [reflexivity|].
    split; [exact Hheap|apply quiet_refl].
  - destruct ev as [c| |e]; simpl in Hev; [|contradiction|subst e].
    + change ((RdByte c :: evs) ++ rest) with (RdByte c :: (evs ++ rest)).
      rewrite shell_readline_loop_byte by exact Hev.
      simpl in Hmax.
      destruct (readline_store_ok c bufsize position buffer done w)
        as (bufsize' & buffer' & w' & E & Hlen' & Hpos' & Hsize' & Htake'
            & Hheap' & Hq & Hin'); auto; try lia.
      rewrite E.
      destruct (IH rest bufsize' (position + 1)%Z buffer' (done ++ [c]) w')
        as (b2 & p2 & buf2 & w2 & E2 & Hh2 & Hq2); auto; try lia.
      exists b2, p2, buf2, w2. split; [exact E2|].
      split; [exact Hh2|apply (quiet_trans _ _ _ Hq Hq2)].
    + simpl.
      destruct (IH rest bufsize position buffer done (set_errno EINTR w))
        as (b2 & p2 & buf2 & w2 & E2 & Hh2 & Hq2); auto.
      exists b2, p2, buf2, w2. split; [exact E2|].
      split; [exact Hh2|]. unfold quiet in *. simpl in Hq2. exact Hq2.
Qed.

(** X10.  When the stream ends or a read fails with an error other than
    EINTR before a newline has been read, shell_readline returns NULL:
    the bytes read so far are dropped, nothing is printed, and the reads
    up to and including the failing one are consumed. *)
Theorem shell_readline_no_line (evs stop : list read_result) (w : world) :
  w_stdin w = evs ++ stop ->
  Forall line_event evs ->
  heap_ok w ->
  (Z.of_nat (length (delivered evs)) + SHELL_LINE_BUFSIZE <= INT_MAX)%Z ->
  match stop with
  | [] | RdEof :: _ => True
  | RdError e :: _ => e <> EINTR
  | RdByte _ :: _ => False
  end ->
  exists w',
    shell_readline w = (Ret None, w')
    /\ w_stdin w' = tail stop
    /\ w_stdout w' = w_stdout w /\ w_stderr w' = w_stderr w
    /\ w_fork w' = w_fork w /\ w_env w' = w_env w.
Proof.
  intros Hin Hevs Hheap Hmax Hstop. unfold shell_readline.
  destruct (malloc_ok (A := ascii) SHELL_LINE_BUFSIZE w Hheap)
    as (w1 & E & Hheap1 & Hq1 & Hin1).
  rewrite (bindM_ret _ _ _ _ _ E). rewrite Hin1, Hin.
  destruct (shell_readline_loop_run evs Hevs stop SHELL_LINE_BUFSIZE 0%Z
              (replicate (Z.to_nat SHELL_LINE_BUFSIZE) None) [] w1)
    as (b2 & p2 & buf2 & w2 & E2 & Hh2 & Hq2); auto;
    try apply length_replicate; try (unfold SHELL_LINE_BUFSIZE; lia).
  rewrite E2.
  pose proof (quiet_trans _ _ _ Hq1 Hq2) as Hq.
  unfold quiet in Hq.
  destruct stop as [|[c| |e] rest]; try contradiction.
  - exists (set_stdin [] w2). split; [reflexivity|]. simpl. intuition.
  - exists (set_stdin rest w2). split; [reflexivity|]. simpl. intuition.
  - exists (set_stdin rest (set_errno e w2)). split.
    + simpl. destruct (Z.eqb_spec e EINTR) as [?|_]; [contradiction|].
      reflexivity.
    + simpl. intuition.
Qed.

Lemma readline_store_fits c bufsize position (buffer : block) w :
  (0 <= position < Z.of_nat (length buffer))%Z ->
  (position + 1 < bufsize)%Z ->
  (bufsize <= INT_MAX)%Z ->
  readline_store c bufsize position buffer w
  = (Ret (Some (bufsize, (position + 1)%Z,
                <[Z.to_nat position := Some c]> buffer)), w).
Proof.
  intros Hin Hfit Hmax. unfold readline_store.
  rewrite (bindM_ret _ _ _ _ _ (store_ok buffer position c w Hin)).
  assert (Hp1 : (position + 1 <= INT_MAX)%Z) by lia.
  rewrite (bindM_ret _ _ _ _ _ (int_add_ok position 1 w Hp1)).
  destruct (Z.geb_spec (position + 1) bufsize); [lia|]. reflexivity.
Qed.

(** Reads that fit into the block as it is: no allocation takes place. *)
Lemma shell_readline_loop_fill evs :
  Forall line_event evs ->
  forall rest bufsize position (buffer : block) w,
    length buffer = Z.to_nat bufsize ->
    (0 <= position)%Z ->
    (position + Z.of_nat (length (delivered evs)) < bufsize)%Z ->
    (bufsize <= INT_MAX)%Z ->
    exists buffer' w',
      shell_readline_loop (evs ++ rest) bufsize position buffer w
      = shell_readline_loop rest bufsize
          (position + Z.of_nat (length (delivered evs)))%Z buffer' w'
      /\ length buffer' = length buffer
      /\ take (Z.to_nat position + length (delivered evs)) buffer'
         = take (Z.to_nat position) buffer ++ (Some <$> delivered evs)
      /\ w_heap w' = w_heap w /\ quiet w w'.
Proof.
  induction 1 as [|ev evs Hev _ IH];
    intros rest bufsize position buffer w Hlen Hpos Hfit Hmax.
  - exists buffer, w. cbn [delivered length app Z.of_nat].
    rewrite Z.add_0_r, Nat.add_0_r, app_nil_r.
    repeat match goal with |- _ /\ _ => split end; auto using quiet_refl.
  - destruct ev as [c| |e]; simpl in Hev; [|contradiction|subst e].
    + change ((RdByte c :: evs) ++ rest) with (RdByte c :: (evs ++ rest)).
      rewrite shell_readline_loop_byte by exact Hev.
      cbn [delivered length] in *.
      rewrite readline_store_fits by lia.
      destruct (IH rest bufsize (position + 1)%Z
                  (<[Z.to_nat position := Some c]> buffer) w)
        as (b2 & w2 & E2 & Hl2 & Ht2 & Hh2 & Hq2);
        try (rewrite ?length_insert; lia).
      exists b2, w2. rewrite E2.
      repeat match goal with |- _ /\ _ => split end; auto.
      * f_equal. lia.
      * rewrite Hl2. apply length_insert.
      * replace (Z.to_nat position + S (length (delivered evs)))
          with (Z.to_nat (position + 1) + length (delivered evs)) by lia.
        rewrite Ht2.
        replace (Z.to_nat (position + 1)) with (S (Z.to_nat position))
          by lia.
        rewrite (take_S_r _ _ (Some c))
          by (apply list_lookup_insert_eq; lia).
        rewrite take_insert_ge by lia.
        rewrite <- app_assoc. reflexivity.
    + simpl.
      destruct (IH rest bufsize position buffer (set_errno EINTR w))
        as (b2 & w2 & E2 & Hl2 & Ht2 & Hh2 & Hq2); auto.
      exists b2, w2.
      repeat match goal with |- _ /\ _ => split end; auto.
Qed.

(** X11.  When the line buffer is full after 1024 bytes without a newline
    and the realloc that should grow it fails, shell_readline writes
    "realloc: <reason>" to standard error and returns NULL: the 1024
    bytes read are dropped, and the rest of the long line stays in the
    input, where the next call will read it as a line of its own. *)
Theorem shell_readline_growth_failure (evs rest : list read_result)
    (c : ascii) (h : list bool) (w : world) :
  w_heap w = true :: false :: h ->
  w_stdin w = evs ++ RdByte c :: rest ->
  Forall line_event evs ->
  length (delivered evs) = 1023 ->
  c <> NL ->
  exists w',
    shell_readline w = (Ret None, w')
    /\ w_stdin w' = rest
    /\ w_stderr w' = w_stderr w +:+ "realloc: " +:+ strerror ENOMEM +:+ nl
    /\ w_stdout w' = w_stdout w
    /\ w_heap w' = h.
Proof.
  intros Hheap Hin Hevs Hlen Hc.
  unfold shell_readline, bindM at 1, malloc, heap_next. rewrite Hheap.
  cbn [w_stdin set_heap]. rewrite Hin.
  set (w1 := set_heap (false :: h) w).
  destruct (shell_readline_loop_fill evs Hevs (RdByte c :: rest)
              SHELL_LINE_BUFSIZE 0%Z
              (replicate (Z.to_nat SHELL_LINE_BUFSIZE) None) w1)
    as (b2 & w2 & E2 & Hl2 & _ & Hh2 & Hq2);
    try apply length_replicate;
    try (unfold SHELL_LINE_BUFSIZE, INT_MAX; lia).
  rewrite E2, Hlen. rewrite shell_readline_loop_byte by exact Hc.
  rewrite length_replicate in Hl2.
  unfold readline_store.
  assert (Hin2 : (0 <= 0 + Z.of_nat 1023 < Z.of_nat (length b2))%Z)
    by (rewrite Hl2; unfold SHELL_LINE_BUFSIZE; lia).
  rewrite (bindM_ret _ _ _ _ _ (store_ok b2 _ c w2 Hin2)).
  assert (Hp1 : (0 + Z.of_nat 1023 + 1 <= INT_MAX)%Z)
    by (unfold INT_MAX; lia).
  rewrite (bindM_ret _ _ _ _ _ (int_add_ok _ 1 w2 Hp1)).
  change (0 + Z.of_nat 1023 + 1 >=? SHELL_LINE_BUFSIZE)%Z with true.
  cbv beta iota.
  assert (Hb : (SHELL_LINE_BUFSIZE + SHELL_LINE_BUFSIZE <= INT_MAX)%Z)
    by (unfold SHELL_LINE_BUFSIZE, INT_MAX; lia).
  rewrite (bindM_ret _ _ _ _ _ (int_add_ok _ _ w2 Hb)).
  unfold bindM, realloc, heap_next. rewrite Hh2. unfold w1.
  cbn [w_heap set_heap]. unfold strerror_errno, eprintf, retM.
  cbn [w_errno set_errno].
  eexists. split; [reflexivity|].
  destruct Hq2 as (Ho & He & _). cbn in Ho, He |- *.
  rewrite Ho, He. auto.
Qed.

Lemma shell_readline_short_gen evs rest h w :
  w_heap w = true :: h ->
  w_stdin w = evs ++ RdByte NL :: rest ->
  Forall line_event evs ->
  length (delivered evs) < 1024 ->
  exists buffer w',
    shell_readline w = (Ret (Some buffer), w')
    /\ take (length (delivered evs)) buffer = Some <$> delivered evs
    /\ buffer !! length (delivered evs) = Some (Some NUL)
    /\ length buffer = 1024
    /\ w_stdin w' = rest /\ w_heap w' = h /\ quiet w w'.
Proof.
  intros Hheap Hin Hevs Hlen.
  unfold shell_readline, bindM at 1, malloc, heap_next. rewrite Hheap.
  cbn [w_stdin set_heap]. rewrite Hin.
  set (w1 := set_heap h w).
  destruct (shell_readline_loop_fill evs Hevs (RdByte NL :: rest)
              SHELL_LINE_BUFSIZE 0%Z
              (replicate (Z.to_nat SHELL_LINE_BUFSIZE) None) w1)
    as (b2 & w2 & E2 & Hl2 & Ht2 & Hh2 & Hq2);
    try apply length_replicate;
    try (unfold SHELL_LINE_BUFSIZE, INT_MAX; lia).
  rewrite E2. rewrite length_replicate in Hl2.
  cbn [Z.to_nat Nat.add take app] in Ht2.
  assert (Hin2 : (0 <= 0 + Z.of_nat (length (delivered evs))
                  < Z.of_nat (length b2))%Z)
    by (rewrite Hl2; unfold SHELL_LINE_BUFSIZE; lia).
  cbn [shell_readline_loop sys_read Z.eqb andb Z.leb Z.compare].
  rewrite Ascii.eqb_refl.
  rewrite (bindM_ret _ _ _ _ _ (store_ok b2 _ NUL _ Hin2)). unfold retM.
  rewrite Z.add_0_l, Nat2Z.id.
  eexists _, _. split; [reflexivity|].
  repeat match goal with |- _ /\ _ => split end.
  - rewrite take_insert_ge by lia. exact Ht2.
  - apply list_lookup_insert_eq. lia.
  - rewrite length_insert, Hl2. reflexivity.
  - reflexivity.
  - simpl. rewrite Hh2. reflexivity.
  - unfold quiet in *. unfold w1 in Hq2. simpl in *. exact Hq2.
Qed.

(** X12.  When the malloc of the line buffer fails, the round reads
    nothing: it prints the prompt, writes "malloc: <reason>" to standard
    error and ends with exit code 0; the pending input is left as it is,
    no command runs and sys_fork is not called. *)
Theorem shell_loop_body_no_buffer (h : list bool) (w : world) :
  w_heap w = false :: h ->
  exists w1,
    shell_loop_body w = (Ret 0%Z, w1)
    /\ w_stdin w1 = w_stdin w
    /\ w_stdout w1 = w_stdout w +:+ prompt_text w
    /\ w_stderr w1 = w_stderr w +:+ "malloc: " +:+ strerror ENOMEM +:+ nl
    /\ w_heap w1 = h
    /\ w_fork w1 = w_fork w /\ w_env w1 = w_env w.
Proof.
  intros Hheap.
  destruct (shell_prompt_prints w) as (Hp & Ho & Hi & Hh & He & Hf & Hv & Hc).
  destruct (shell_prompt w) as [r w0] eqn:E0. simpl in *. subst r.
  unfold shell_loop_body.
  rewrite (bindM_ret _ _ _ _ _ E0). unfold bindM at 1, setvbuf at 1.
  unfold bindM at 1, shell_readline, bindM at 1, malloc, heap_next.
  cbn [w_heap set_bufmode]. rewrite Hh, Hheap.
  unfold bindM, strerror_errno, eprintf, retM, setvbuf. cbn.
  eexists. split; [reflexivity|]. cbn.
  rewrite Ho, He, Hi, Hf, Hv. repeat split.
Qed.

(** X13.  When the line is read but the malloc of the token array fails,
    the round drops the line: it prints the prompt and then "malloc:
    <reason>" on standard output and ends with exit code 0; the line is
    consumed, no command runs (whatever the line names) and sys_fork is
    not called. *)
Theorem shell_loop_body_no_tokens (evs rest : list read_result)
    (h : list bool) (w : world) :
  w_heap w = true :: false :: h ->
  w_stdin w = evs ++ RdByte NL :: rest ->
  Forall line_event evs ->
  length (delivered evs) < 1024 ->
  exists w1,
    shell_loop_body w = (Ret 0%Z, w1)
    /\ w_stdin w1 = rest
    /\ w_stdout w1
       = w_stdout w +:+ prompt_text w
         +:+ "malloc: " +:+ strerror ENOMEM +:+ nl
    /\ w_stderr w1 = w_stderr w
    /\ w_heap w1 = h
    /\ w_fork w1 = w_fork w /\ w_env w1 = w_env w.
Proof.
  intros Hheap Hin Hevs Hlen.
  destruct (shell_prompt_prints w) as (Hp & Ho & Hi & Hh & He & Hf & Hv & Hc).
  destruct (shell_prompt w) as [r w0] eqn:E0. simpl in *. subst r.
  set (w0' := set_bufmode IONBF w0).
  destruct (shell_readline_short_gen evs rest (false :: h) w0')
    as (buffer & w2 & E2 & _ & _ & _ & Hs2 & Hh2 & Hq2); auto.
  { unfold w0'. cbn. rewrite Hh. exact Hheap. }
  { unfold w0'. cbn. rewrite Hi. exact Hin. }
  unfold shell_loop_body.
  rewrite (bindM_ret _ _ _ _ _ E0). unfold bindM at 1, setvbuf at 1.
  fold w0'. rewrite (bindM_ret _ _ _ _ _ E2).
  unfold bindM at 1, setvbuf at 1.
  unfold bindM at 1, shell_splitline, bindM at 1, malloc, heap_next.
  cbn [w_heap set_bufmode]. rewrite Hh2.
  unfold bindM, strerror_errno, printf, retM. cbn.
  eexists. split; [reflexivity|]. cbn.
  destruct Hq2 as (Ho2 & He2 & Hf2 & _ & Hv2 & _). unfold w0' in *.
  cbn in Ho2, He2, Hf2, Hv2.
  rewrite Hs2, Ho2, He2, Hf2, Hv2, Ho, He, Hf, Hv, !append_assoc.
  repeat split.
Qed.

(** *** Further properties of the tokenizer *)

Lemma spec_tokens_join (ts : list (list ascii)) :
  Forall word ts -> spec_tokens (join_words ts) = ts.
Proof.
  induction 1 as [|t ts (Hne & Hd & _) Hts IH]; [reflexivity|].
  destruct ts as [|t' ts].
  - cbn [join_words]. apply spec_tokens_last; assumption.
  - change (join_words (t :: t' :: ts))
      with (t ++ " "%char :: join_words (t' :: ts)).
    rewrite spec_tokens_token by (assumption || reflexivity).
    rewrite IH. reflexivity.
Qed.

Lemma join_words_no_NUL (ts : list (list ascii)) :
  Forall word ts -> Forall (fun c => c <> NUL) (join_words ts).
Proof.
  induction 1 as [|t ts (_ & _ & Hn) Hts IH]; [constructor|].
  destruct ts as [|t' ts]; [exact Hn|].
  change (join_words (t :: t' :: ts))
    with (t ++ " "%char :: join_words (t' :: ts)).
  apply Forall_app. split; [exact Hn|].
  constructor; [discriminate|exact IH].
Qed.

(** X14.  Round trip: for words that are not empty and hold neither a
    delimiter nor NUL, shell_splitline applied to the words joined by
    single spaces returns an argument vector whose strings are exactly
    those words, in order. *)
Theorem shell_splitline_join (ts : list (list ascii)) (post : block)
    (w : world) :
  Forall word ts ->
  heap_ok w ->
  (Z.of_nat (length (join_words ts)) + SHELL_TOK_BUFSIZE <= INT_MAX)%Z ->
  exists ps rest line' w',
    shell_splitline ((Some <$> join_words ts) ++ Some NUL :: post) w
    = (Ret (Some (argv_of ps rest), line'), w')
    /\ arg_strings line' (argv_of ps rest)
       = Some (string_of_list_ascii <$> ts)
    /\ length ps = length ts.
Proof.
  intros Hts Hheap Hmax.
  destruct (shell_splitline_tokens_gen (join_words ts) post w
              (join_words_no_NUL ts Hts) Hheap Hmax)
    as (ps & rest & line' & w' & E & Hf & _).
  rewrite (spec_tokens_join ts Hts) in Hf.
  exists ps, rest, line', w'. split; [exact E|]. split.
  - apply arg_strings_argv_of. exact Hf.
  - apply (Forall2_length _ _ _ Hf).
Qed.

(** X15.  A NUL byte inside a line ends the command line: the whole line
    is read and consumed, but the string that shell_readline returns
    stops at the first NUL, and shell_splitline yields the tokens of the
    part before it only. *)
Theorem embedded_NUL_truncates (a b : list ascii)
    (rest : list read_result) (w : world) :
  w_stdin w = (RdByte <$> (a ++ NUL :: b)) ++ RdByte NL :: rest ->
  Forall (fun c => c <> NL /\ c <> NUL) a ->
  Forall (fun c => c <> NL) b ->
  heap_ok w ->
  (Z.of_nat (length (a ++ NUL :: b)) + SHELL_LINE_BUFSIZE <= INT_MAX)%Z ->
  exists buffer w1 ps rest' line' w2,
    shell_readline w = (Ret (Some buffer), w1)
    /\ w_stdin w1 = rest
    /\ str_at buffer 0 = Some a
    /\ shell_splitline buffer w1
       = (Ret (Some (argv_of ps rest'), line'), w2)
    /\ arg_strings line' (argv_of ps rest')
       = Some (string_of_list_ascii <$> spec_tokens a).
Proof.
  intros Hin Ha Hb Hheap Hmax.
  assert (Hev : Forall line_event (RdByte <$> (a ++ NUL :: b))).
  { apply Forall_fmap, Forall_app. split.
    - eapply Forall_impl; [exact Ha|]. intros c [H _]. exact H.
    - constructor; [discriminate|exact Hb]. }
  rewrite <- (delivered_bytes (a ++ NUL :: b)) in Hmax.
  destruct (shell_readline_line_gen _ rest w Hin Hev Hheap Hmax)
    as (buffer & w1 & E1 & Ht1 & Hn1 & Hs1 & Hh1 & _).
  rewrite delivered_bytes in Ht1, Hn1, Hmax.
  assert (Han : Forall (fun c => c <> NUL) a)
    by (eapply Forall_impl; [exact Ha|]; intros c [_ H]; exact H).
  assert (Hbuf : buffer
                 = (Some <$> a)
                   ++ Some NUL :: (Some <$> b)
                   ++ Some NUL :: drop (S (length (a ++ NUL :: b))) buffer).
  { rewrite <- (take_drop_middle _ _ _ Hn1) at 1. rewrite Ht1.
    rewrite fmap_app, fmap_cons, <- app_assoc. reflexivity. }
  destruct (shell_splitline_tokens_gen a
              ((Some <$> b)
               ++ Some NUL :: drop (S (length (a ++ NUL :: b))) buffer)
              w1 Han Hh1)
    as (ps & rest' & line' & w2 & E2 & Hf2 & _).
  { rewrite length_app in Hmax.
    unfold SHELL_TOK_BUFSIZE, SHELL_LINE_BUFSIZE in *. lia. }
  rewrite <- Hbuf in E2.
  exists buffer, w1, ps, rest', line', w2.
  repeat match goal with |- _ /\ _ => split end; auto.
  - rewrite Hbuf. apply (str_at_middle [] a). exact Han.
  - apply arg_strings_argv_of. exact Hf2.
Qed.

(** X16.  A round that reads a line whose first token is the name of an
    entry of the command table prints the prompt and calls the entry's
    function with argc the number of tokens of the line and argv its
    tokens: in the shell's own process when the entry's fork flag is 0,
    so that what the command does to the world is what the round leaves
    behind, and through shell_fork otherwise. *)
Theorem shell_loop_body_command (evs rest : list read_result)
    (t : list ascii) (ts : list (list ascii)) (cmd : shell_command_t)
    (w : world) :
  w_stdin w = evs ++ RdByte NL :: rest ->
  Forall line_event evs ->
  Forall (fun c => c <> NUL) (delivered evs) ->
  heap_ok w ->
  (Z.of_nat (length (delivered evs)) + SHELL_LINE_BUFSIZE <= INT_MAX)%Z ->
  spec_tokens (delivered evs) = t :: ts ->
  lookup_command commands (string_of_list_ascii t) = Some cmd ->
  exists w1,
    shell_loop_body w
    = (if negb (fork cmd =? 0)%Z
       then shell_fork (call (main cmd)) (Z.of_nat (length (t :: ts)))
                       (string_of_list_ascii <$> (t :: ts)) w1
       else call (main cmd) (Z.of_nat (length (t :: ts)))
                 (string_of_list_ascii <$> (t :: ts)) w1)
    /\ w_stdout w1 = w_stdout w +:+ prompt_text w
    /\ w_stdin w1 = rest
    /\ w_stderr w1 = w_stderr w
    /\ w_fork w1 = w_fork w /\ w_wait w1 = w_wait w
    /\ w_env w1 = w_env w /\ w_cwd w1 = w_cwd w
    /\ w_globals w1 = w_globals w.
Proof.
  intros Hin Hevs Hnul Hheap Hmax Htok Hfind.
  destruct (shell_loop_body_line_gen evs rest w Hin Hevs Hnul Hheap Hmax)
    as (ps & rest' & line' & w1 & E & Hf & H).
  rewrite Htok in Hf.
  pose proof (Forall2_length _ _ _ Hf) as Hl.
  destruct ps as [|p ps]; [discriminate Hl|].
  assert (Hlen : (Z.of_nat (length (p :: ps)) <= INT_MAX)%Z).
  { rewrite Hl, <- Htok.
    pose proof (spec_tokens_length (delivered evs)) as Hb.
    unfold SHELL_LINE_BUFSIZE, INT_MAX in *. lia. }
  exists w1. split; [|intuition].
  rewrite E, <- Hl.
  apply shell_execute_dispatch_gen; assumption.
Qed.

Lemma c_str_length (b : block) (t : list ascii) :
  c_str b = Some t -> length t < length b.
Proof.
  revert t. induction b as [|[c|] b IH]; intros t; simpl; try discriminate.
  destruct (Ascii.eqb c NUL).
  - intros [= <-]. simpl. lia.
  - destruct (c_str b) as [t'|]; simpl; [|discriminate].
    intros [= <-]. simpl. specialize (IH t' eq_refl). lia.
Qed.

(** X17.  Every pointer that shell_splitline stores points into the line
    block, and the token it points to lies inside the block together with
    its terminating NUL; the block itself keeps its length.  No token
    reaches outside the line it was cut from. *)
Theorem shell_splitline_in_bounds (s : list ascii) (post : block)
    (w : world) :
  Forall (fun c => c <> NUL) s ->
  heap_ok w ->
  (Z.of_nat (length s) + SHELL_TOK_BUFSIZE <= INT_MAX)%Z ->
  exists ps rest line' w',
    shell_splitline ((Some <$> s) ++ Some NUL :: post) w
    = (Ret (Some (argv_of ps rest), line'), w')
    /\ length line' = length ((Some <$> s) ++ Some NUL :: post)
    /\ Forall (fun p => exists t, str_at line' p = Some t
                                  /\ p + length t < length line') ps.
Proof.
  intros Hs Hheap Hmax.
  destruct (shell_splitline_tokens_gen s post w Hs Hheap Hmax)
    as (ps & rest & line' & w' & E & Hf & Hl & _).
  exists ps, rest, line', w'. split; [exact E|]. split; [exact Hl|].
  clear E. induction Hf as [|p t ps ts Hp _ IH]; constructor; [|exact IH].
  exists t. split; [exact Hp|].
  unfold str_at in Hp. apply c_str_length in Hp.
  rewrite length_drop in Hp. lia.
Qed.

(** X18.  In the child of a forked command the loop does not go on: when
    a round reads the line of a command whose fork flag is set and
    sys_fork returns 0, the command runs and the process ends with the
    command's return value; no further prompt is printed. *)
Theorem forked_child_leaves_loop (evs rest : list read_result)
    (t : list ascii) (ts : list (list ascii)) (cmd : shell_command_t)
    (forks : list fork_result) (w : world) :
  w_stdin w = evs ++ RdByte NL :: rest ->
  Forall line_event evs ->
  Forall (fun c => c <> NUL) (delivered evs) ->
  heap_ok w ->
  (Z.of_nat (length (delivered evs)) + SHELL_LINE_BUFSIZE <= INT_MAX)%Z ->
  spec_tokens (delivered evs) = t :: ts ->
  lookup_command commands (string_of_list_ascii t) = Some cmd ->
  fork cmd <> 0%Z ->
  w_fork w = ForkChild :: forks ->
  exists w1,
    w_stdout w1 = w_stdout w +:+ prompt_text w
    /\ w_fork w1 = forks
    /\ w_env w1 = w_env w
    /\ forall rc w2,
         call (main cmd) (Z.of_nat (length (t :: ts)))
              (string_of_list_ascii <$> (t :: ts)) w1 = (Ret rc, w2) ->
         forall rounds running, running <> 0%Z ->
           shell_loop_from (S rounds) running w = (Exited rc, w2).
Proof.
  intros Hin Hevs Hnul Hheap Hmax Htok Hfind Hfork Hchild.
  destruct (shell_loop_body_line_gen evs rest w Hin Hevs Hnul Hheap Hmax)
    as (ps & rest' & line' & w1 & E & Hf & Ho & _ & _ & Hfk & _ & Hv & _).
  rewrite Htok in Hf.
  pose proof (Forall2_length _ _ _ Hf) as Hl.
  destruct ps as [|p ps]; [discriminate Hl|].
  assert (Hlen : (Z.of_nat (length (p :: ps)) <= INT_MAX)%Z).
  { rewrite Hl, <- Htok.
    pose proof (spec_tokens_length (delivered evs)) as Hb.
    unfold SHELL_LINE_BUFSIZE, INT_MAX in *. lia. }
  exists (set_fork forks w1).
  split; [exact Ho|]. split; [reflexivity|]. split; [exact Hv|].
  intros rc w2 Hrun rounds running Hrunning.
  cbn [shell_loop_from].
  destruct (Z.eqb_spec running 0) as [?|_]; [contradiction|].
  unfold bindM at 1. rewrite E.
  rewrite (shell_execute_dispatch_gen line' p ps rest' t ts cmd w1 Hf Hlen
             Hfind).
  destruct (Z.eqb_spec (fork cmd) 0) as [?|_]; [contradiction|].
  cbn [negb].
  rewrite shell_fork_child_gen with (forks := forks)
    by (rewrite Hfk; exact Hchild).
  rewrite Hl.
  replace (set_fork forks (set_fork forks w1)) with (set_fork forks w1)
    in Hrun by reflexivity.
  rewrite Hrun. reflexivity.
Qed.

(** X19.  In the shell itself a forked command changes nothing but the
    prompt: when a round reads the line of a command whose fork flag is
    set, sys_fork returns the child's pid and the child is reported as
    exited or signalled, the round's exit code is WEXITSTATUS of that
    status, and the environment, the working directory and standard error
    are as before the round, whatever the command is. *)
Theorem forked_command_round (evs rest : list read_result)
    (t : list ascii) (ts : list (list ascii)) (cmd : shell_command_t)
    (pid : Z) (forks : list fork_result) (stops : list Z) (s : Z)
    (waits : list wait_result) (w : world) :
  w_stdin w = evs ++ RdByte NL :: rest ->
  Forall line_event evs ->
  Forall (fun c => c <> NUL) (delivered evs) ->
  heap_ok w ->
  (Z.of_nat (length (delivered evs)) + SHELL_LINE_BUFSIZE <= INT_MAX)%Z ->
  spec_tokens (delivered evs) = t :: ts ->
  lookup_command commands (string_of_list_ascii t) = Some cmd ->
  fork cmd <> 0%Z ->
  w_fork w = ForkParent pid :: forks ->
  (0 < pid)%Z ->
  w_wait w = (WaitStatus <$> stops) ++ WaitStatus s :: waits ->
  Forall (fun x => terminal x = false) stops ->
  terminal s = true ->
  exists w1,
    shell_loop_body w = (Ret (WEXITSTATUS s), w1)
    /\ w_stdout w1 = w_stdout w +:+ prompt_text w
    /\ w_stdin w1 = rest
    /\ w_stderr w1 = w_stderr w
    /\ w_fork w1 = forks /\ w_wait w1 = waits
    /\ w_env w1 = w_env w /\ w_cwd w1 = w_cwd w
    /\ w_globals w1 = w_globals w.
Proof.
  intros Hin Hevs Hnul Hheap Hmax Htok Hfind Hfork Hparent Hpid Hwait
         Hstops Hs.
  destruct (shell_loop_body_line_gen evs rest w Hin Hevs Hnul Hheap Hmax)
    as (ps & rest' & line' & w1 & E & Hf & Ho & Hi & He & Hfk & Hw & Hv
        & Hc & Hg & _).
  rewrite Htok in Hf.
  pose proof (Forall2_length _ _ _ Hf) as Hl.
  destruct ps as [|p ps]; [discriminate Hl|].
  assert (Hlen : (Z.of_nat (length (p :: ps)) <= INT_MAX)%Z).
  { rewrite Hl, <- Htok.
    pose proof (spec_tokens_length (delivered evs)) as Hb.
    unfold SHELL_LINE_BUFSIZE, INT_MAX in *. lia. }
  exists (set_wait waits (set_fork forks w1)). split.
  - rewrite E.
    rewrite (shell_execute_dispatch_gen line' p ps rest' t ts cmd w1 Hf Hlen
               Hfind).
    destruct (Z.eqb_spec (fork cmd) 0) as [?|_]; [contradiction|].
    cbn [negb].
    apply (shell_fork_parent_gen _ _ _ pid forks stops s waits w1);
      auto; congruence.
  - cbn. repeat match goal with |- _ /\ _ => split end; auto.
Qed.

(** *** The growth of the line buffer *)

Lemma readline_store_grows c bufsize position (buffer : block) w :
  heap_ok w ->
  length buffer = Z.to_nat bufsize ->
  (0 <= position)%Z ->
  (position + 1 = bufsize)%Z ->
  (bufsize + SHELL_LINE_BUFSIZE <= INT_MAX)%Z ->
  exists w',
    readline_store c bufsize position buffer w
    = (Ret (Some ((bufsize + SHELL_LINE_BUFSIZE)%Z, (position + 1)%Z,
                  <[Z.to_nat position := Some c]> buffer
                  ++ replicate (Z.to_nat SHELL_LINE_BUFSIZE) None)), w')
    /\ heap_ok w' /\ quiet w w'.
Proof.
  intros Hheap Hlen Hpos Hfull Hmax. unfold readline_store.
  assert (Hin : (0 <= position < Z.of_nat (length buffer))%Z) by lia.
  rewrite (bindM_ret _ _ _ _ _ (store_ok buffer position c w Hin)).
  assert (Hp1 : (position + 1 <= INT_MAX)%Z)
    by (unfold SHELL_LINE_BUFSIZE in *; lia).
  rewrite (bindM_ret _ _ _ _ _ (int_add_ok position 1 w Hp1)).
  destruct (Z.geb_spec (position + 1) bufsize); [|lia].
  rewrite (bindM_ret _ _ _ _ _ (int_add_ok bufsize _ w Hmax)).
  destruct (realloc_ok (<[Z.to_nat position := Some c]> buffer)
              (bufsize + SHELL_LINE_BUFSIZE) w Hheap)
    as (w' & E & Hheap' & Hq & _).
  rewrite (bindM_ret _ _ _ _ _ E). unfold retM.
  exists w'. split; [|split; assumption].
  rewrite take_ge by (rewrite length_insert; unfold SHELL_LINE_BUFSIZE; lia).
  rewrite length_insert.
  replace (Z.to_nat (bufsize + SHELL_LINE_BUFSIZE) - length buffer)
    with (Z.to_nat SHELL_LINE_BUFSIZE)
    by (unfold SHELL_LINE_BUFSIZE in *; lia).
  reflexivity.
Qed.

Lemma insert_fresh_cell (done : list ascii) (c : ascii) (m : nat) :
  <[length done := Some c]> ((Some <$> done) ++ replicate (S m) None)
  = (Some <$> (done ++ [c])) ++ replicate m (None : cell).
Proof.
  replace (length done) with (length (Some <$> done) + 0)
    by (rewrite length_fmap; lia).
  rewrite insert_app_r, fmap_app, <- app_assoc. reflexivity.
Qed.

Lemma shell_readline_loop_exact evs :
  Forall line_event evs ->
  forall rest (done : list ascii) (k : nat) w,
    heap_ok w ->
    1024 * k <= length done < 1024 * (k + 1) ->
    (Z.of_nat (length done) + Z.of_nat (length (delivered evs))
     + SHELL_LINE_BUFSIZE <= INT_MAX)%Z ->
    exists (k' : nat) w',
      shell_readline_loop (evs ++ RdByte NL :: rest)
        (Z.of_nat (1024 * (k + 1))) (Z.of_nat (length done))
        ((Some <$> done) ++ replicate (1024 * (k + 1) - length done) None) w
      = (Ret (Some ((Some <$> (done ++ delivered evs))
                    ++ Some NUL
                    :: replicate (1024 * (k' + 1)
                                  - S (length (done ++ delivered evs)))
                                 None)), w')
      /\ 1024 * k' <= length (done ++ delivered evs) < 1024 * (k' + 1).
Proof.
  induction 1 as [|ev evs Hev _ IH]; intros rest done k w Hheap Hk Hmax.
  - exists k, (set_stdin rest w). cbn [app delivered]. rewrite app_nil_r.
    split; [|exact Hk].
    cbn [shell_readline_loop sys_read Z.eqb andb Z.leb Z.compare].
    rewrite Ascii.eqb_refl.
    assert (Hin : (0 <= Z.of_nat (length done)
                   < Z.of_nat (length ((Some <$> done)
                        ++ replicate (1024 * (k + 1) - length done)
                                     (None : cell))))%Z)
      by (rewrite length_app, length_fmap, length_replicate; lia).
    rewrite (bindM_ret _ _ _ _ _ (store_ok _ _ NUL _ Hin)). unfold retM.
    rewrite Nat2Z.id.
    replace (1024 * (k + 1) - length done)
      with (S (1024 * (k + 1) - S (length done))) by lia.
    replace (length done) with (length (Some <$> done) + 0) at 1
      by (rewrite length_fmap; lia).
    rewrite insert_app_r. reflexivity.
  - destruct ev as [c| |e]; simpl in Hev; [|contradiction|subst e].
    + change ((RdByte c :: evs) ++ RdByte NL :: rest)
        with (RdByte c :: (evs ++ RdByte NL :: rest)).
      rewrite shell_readline_loop_byte by exact Hev.
      cbn [delivered length] in Hmax |- *.
      set (buffer := (Some <$> done)
                     ++ replicate (1024 * (k + 1) - length done)
                                  (None : cell)).
      assert (Hlen : length buffer = Z.to_nat (Z.of_nat (1024 * (k + 1)))).
      { unfold buffer.
        rewrite length_app, length_fmap, length_replicate. lia. }
      assert (Hins : <[Z.to_nat (Z.of_nat (length done)) := Some c]> buffer
                     = (Some <$> (done ++ [c]))
                       ++ replicate (1024 * (k + 1) - S (length done)) None).
      { unfold buffer. rewrite Nat2Z.id.
        replace (1024 * (k + 1) - length done)
          with (S (1024 * (k + 1) - S (length done))) by lia.
        apply insert_fresh_cell. }
      replace (done ++ c :: delivered evs)
        with ((done ++ [c]) ++ delivered evs)
        by (rewrite <- app_assoc; reflexivity).
      destruct (Nat.eq_dec (S (length done)) (1024 * (k + 1))) as [Hfull|Hfit].
      * destruct (readline_store_grows c (Z.of_nat (1024 * (k + 1)))
                    (Z.of_nat (length done)) buffer w)
          as (w' & E & Hheap' & _); auto;
          try (unfold SHELL_LINE_BUFSIZE in *; lia).
        rewrite E, Hins.
        replace (1024 * (k + 1) - S (length done)) with 0 by lia.
        cbn [replicate]. rewrite app_nil_r.
        destruct (IH rest (done ++ [c]) (k + 1) w') as (k' & w2 & E2 & Hk2);
          auto.
        { rewrite length_app. simpl. lia. }
        { rewrite length_app. simpl. lia. }
        exists k', w2. split; [|exact Hk2].
        rewrite <- E2.
        repeat f_equal;
          rewrite ?length_app; simpl; unfold SHELL_LINE_BUFSIZE; lia.
      * rewrite readline_store_fits;
          try (rewrite ?Hlen; unfold INT_MAX, SHELL_LINE_BUFSIZE in *; lia).
        rewrite Hins.
        destruct (IH rest (done ++ [c]) k w) as (k' & w2 & E2 & Hk2); auto.
        { rewrite length_app. simpl. lia. }
        { rewrite length_app. simpl. lia. }
        exists k', w2. split; [|exact Hk2].
        rewrite <- E2.
        repeat f_equal; rewrite ?length_app; simpl; lia.
    + cbn [delivered] in *. simpl.
      destruct (IH rest done k (set_errno EINTR w)) as (k' & w2 & E2 & Hk2);
        auto.
      exists k', w2. split; [exact E2|exact Hk2].
Qed.

(** X20.  The block that shell_readline returns for a line of n bytes is
    exactly the line, a NUL and untouched cells, 1024 * (n / 1024 + 1)
    cells in all: the buffer starts with 1024 cells and gains 1024 each
    time a byte fills its last cell.  Interrupted reads leave no trace in
    it. *)
Theorem shell_readline_block (evs rest : list read_result) (w : world) :
  w_stdin w = evs ++ RdByte NL :: rest ->
  Forall line_event evs ->
  heap_ok w ->
  (Z.of_nat (length (delivered evs)) + SHELL_LINE_BUFSIZE <= INT_MAX)%Z ->
  exists w',
    shell_readline w
    = (Ret (Some ((Some <$> delivered evs)
                  ++ Some NUL
                  :: replicate (1024 * (length (delivered evs) / 1024 + 1)
                                - S (length (delivered evs))) None)), w').
Proof.
  intros Hin Hevs Hheap Hmax. unfold shell_readline.
  destruct (malloc_ok (A := ascii) SHELL_LINE_BUFSIZE w Hheap)
    as (w1 & E & Hheap1 & _ & Hin1).
  rewrite (bindM_ret _ _ _ _ _ E). rewrite Hin1, Hin.
  destruct (shell_readline_loop_exact evs Hevs rest [] 0 w1 Hheap1)
    as (k' & w2 & E2 & Hk2).
  { simpl. lia. }
  { simpl. exact Hmax. }
  exists w2. cbn [app length fmap list_fmap] in E2, Hk2.
  replace (length (delivered evs) / 1024) with k'
    by (apply Nat.div_unique
          with (r := length (delivered evs) - 1024 * k'); lia).
  exact E2.
Qed.

End Shell.

(** ** Worked examples *)

Lemma line_event_bytes (l : list ascii) :
  forallb (fun c => negb (Ascii.eqb c NL)) l = true ->
  Forall line_event (RdByte <$> l).
Proof.
  induction l as [|c l IH]; simpl; [constructor|].
  intros H. apply andb_true_iff in H as [Hc Hl].
  constructor; [|auto]. simpl. intros ->. discriminate Hc.
Qed.

Lemma no_NUL_bytes (l : list ascii) :
  forallb (fun c => negb (Ascii.eqb c NUL)) l = true ->
  Forall (fun c => c <> NUL) l.
Proof.
  induction l as [|c l IH]; simpl; [constructor|].
  intros H. apply andb_true_iff in H as [Hc Hl].
  constructor; [|auto]. intros ->. discriminate Hc.
Qed.

(** C1, counterexample.  A child killed by SIGKILL has a status for
    which WIFSIGNALED holds, WIFEXITED does not and WTERMSIG is 9.
    shell_fork returns WEXITSTATUS of that status, which is 0: the value
    it returns for a child that dumped core on SIGSEGV and for a child
    that exited with code 0.  The value is the normal-exit extraction and
    tells nothing of the terminating signal. *)
Lemma signaled_child_reports_exit_extraction :
  let killed := wstatus (ChildSignaled 9 false) in
  let dumped := wstatus (ChildSignaled 11 true) in
  let run (s : Z) :=
    fst (shell_fork strerror_text (example_main Entry.main_ls) 2 ["ls"; "/"]
           (start_world [] [] [ForkParent 42] [WaitStatus s])) in
  WIFSIGNALED killed = true /\ WIFEXITED killed = false
  /\ WTERMSIG killed = 9%Z
  /\ run killed = Ret (WEXITSTATUS killed)
  /\ run killed = Ret 0%Z
  /\ run dumped = Ret 0%Z
  /\ run (wstatus (ChildExited 0)) = Ret 0%Z.
Proof. vm_compute. repeat split; reflexivity. Qed.

(** C1, witness: a child that is stopped once and then exits with code 3
    is waited for twice and 3 is returned. *)
Lemma shell_fork_parent_status_witness :
  shell_fork strerror_text (example_main Entry.main_ls) 2 ["ls"; "/"]
    (start_world [] [] [ForkParent 42]
       [WaitStatus (wstatus (ChildStopped 19));
        WaitStatus (wstatus (ChildExited 3))])
  = (Ret 3%Z,
     set_wait [] (set_fork [] (start_world [] [] [ForkParent 42]
       [WaitStatus (wstatus (ChildStopped 19));
        WaitStatus (wstatus (ChildExited 3))]))).
Proof.
  apply (shell_fork_parent_status strerror_text
           (example_main Entry.main_ls) 2 ["ls"; "/"] 42 []
           [wstatus (ChildStopped 19)] (wstatus (ChildExited 3)) []).
  - reflexivity.
  - lia.
  - reflexivity.
  - repeat constructor.
  - reflexivity.
Defined.

(** C2, counterexample.  shell_loop started on an empty, ended standard
    input: after three rounds the loop is still running and has printed
    its prompt three times. *)
Lemma end_of_input_does_not_stop_the_loop :
  let r := shell_loop strerror_text example_main example_date example_time
             3 (start_world [] [] [] []) in
  fst r = Ret (Running 1)
  /\ w_stdout (snd r) = example_banner +:+ "/$ /$ /$ "
  /\ w_stdin (snd r) = [].
Proof. vm_compute. repeat split; reflexivity. Qed.

(** C2, witness: three rounds on an input whose one read to come reports
    the end of the stream. *)
Lemma shell_loop_end_of_input_witness :
  let w := start_world [RdEof] [] [] [] in
  fst (shell_loop_from strerror_text example_main 3 1 w) = Ret (Running 1)
  /\ w_stdout (snd (shell_loop_from strerror_text example_main 3 1 w))
     = w_stdout w +:+ repeated 3 (prompt_text w)
  /\ at_eof (snd (shell_loop_from strerror_text example_main 3 1 w))
  /\ w_fork (snd (shell_loop_from strerror_text example_main 3 1 w))
     = w_fork w.
Proof.
  apply (shell_loop_end_of_input strerror_text example_main 3 1
           (start_world [RdEof] [] [] [])).
  - discriminate.
  - repeat constructor.
Defined.


(** The same run from the entry point: the banner, one prompt, and the
    process ends with the second line still in the input. *)
Example exit_ends_shell_loop_run :
  let r := shell_loop strerror_text example_main example_date example_time
             5 (start_world (typed ("exit" +:+ nl +:+ "ls" +:+ nl))
                  [] [] []) in
  fst r = Exited 0%Z
  /\ w_stdout (snd r) = example_banner +:+ "/$ "
  /\ w_stdin (snd r) = typed ("ls" +:+ nl)
  /\ w_fork (snd r) = [].
Proof. vm_compute. repeat split; reflexivity. Qed.

(** C5, witness: PWD set to "/data" while the working directory is "/";
    PWD unset with working directory "/"; PWD unset and getcwd failing. *)
Lemma shell_prompt_resolution_witness :
  let w_env_set := set_env {["PWD" := "/data"]} (start_world [] [] [] []) in
  let w_cwd_only := start_world [] [] [] [] in
  let w_neither :=
    World [] [] [] [] 0 "" "" IOLBF ∅ None ∅ in
  w_stdout (snd (shell_prompt w_env_set)) = "/data$ "
  /\ w_stdout (snd (shell_prompt w_cwd_only)) = "/$ "
  /\ w_stdout (snd (shell_prompt w_neither)) = "(null)$ ".
Proof.
  intros w1 w2 w3.
  destruct (shell_prompt_resolution w1) as (H1 & _).
  destruct (shell_prompt_resolution w2) as (_ & H2 & _).
  destruct (shell_prompt_resolution w3) as (_ & _ & H3).
  split; [|split].
  - rewrite (H1 "/data"); reflexivity.
  - rewrite (H2 "/"); [reflexivity|reflexivity|reflexivity|].
    vm_compute. discriminate.
  - apply H3; reflexivity.
Defined.

(** C6, witness: a line of 2500 bytes, read after one interrupted read,
    takes two growth steps and is returned whole. *)
Lemma shell_readline_returns_line_witness :
  let evs := RdError EINTR :: (RdByte <$> long_line) in
  let w := start_world (evs ++ RdByte NL :: typed "next") [] [] [] in
  exists buffer w',
    shell_readline strerror_text w = (Ret (Some buffer), w')
    /\ take 2500 buffer = Some <$> long_line
    /\ buffer !! 2500 = Some (Some NUL)
    /\ (Forall (fun c => c <> NUL) long_line ->
        str_at buffer 0 = Some long_line)
    /\ w_stdin w' = typed "next"
    /\ w_stdout w' = w_stdout w /\ w_stderr w' = w_stderr w.
Proof.
  intros evs w.
  apply (shell_readline_returns_line strerror_text evs (typed "next") w).
  - reflexivity.
  - constructor; [reflexivity|].
    apply line_event_bytes. vm_compute. reflexivity.
  - constructor.
  - vm_compute. discriminate.
Defined.

(** C7, witness: the line [ls   -a<TAB>/] yields the tokens "ls", "-a"
    and "/". *)
Lemma shell_splitline_tokens_witness :
  exists ps rest line' w',
    shell_splitline strerror_text (line_of ls_line)
                    (start_world [] [] [] [])
    = (Ret (Some (argv_of ps rest), line'), w')
    /\ arg_strings line' (argv_of ps rest) = Some ["ls"; "-a"; "/"]
    /\ length line' = length (line_of ls_line).
Proof.
  destruct (shell_splitline_tokens strerror_text ls_line []
              (start_world [] [] [] []))
    as (ps & rest & line' & w' & E & _ & Ha & Hl & _).
  - apply no_NUL_bytes. vm_compute. reflexivity.
  - constructor.
  - vm_compute. discriminate.
  - exists ps, rest, line', w'. split; [exact E|]. split; [exact Ha|exact Hl].
Defined.

(** C8, witness: the argument vector of an empty line, over the empty
    table and over the command table. *)
Lemma shell_execute_no_args_witness :
  let argv := argv_of [] (replicate 127 None) in
  let w := start_world [] [] [ForkParent 42] [] in
  count_args argv 0 w = (Ret 0%Z, w)
  /\ shell_execute_in strerror_text example_main [] (line_of []) argv w
     = (Ret (-1)%Z, w)
  /\ shell_execute strerror_text example_main (line_of []) argv w
     = (Ret (-1)%Z, w).
Proof.
  intros argv w.
  apply (shell_execute_no_args strerror_text example_main [] (line_of [])
           argv w).
  reflexivity.
Defined.

(** C9, witness: "frobnicate" is reported as not found and the pending
    answer of sys_fork is left untouched. *)
Lemma shell_execute_not_found_witness :
  let line := line_of (list_ascii_of_string "frobnicate") in
  let w := start_world [] [] [ForkParent 42] [] in
  shell_execute strerror_text example_main line
                (argv_of [0] (replicate 126 None)) w
  = (Ret (-1)%Z,
     set_stdout ("frobnicate: command not found" +:+ nl) w)
  /\ w_fork (snd (shell_execute strerror_text example_main line
                    (argv_of [0] (replicate 126 None)) w))
     = [ForkParent 42].
Proof.
  intros line w.
  apply (shell_execute_not_found strerror_text example_main line 0 []
           (replicate 126 None) (list_ascii_of_string "frobnicate") w).
  - reflexivity.
  - vm_compute. discriminate.
  - apply (bool_decide_unpack _). vm_compute. exact I.
Defined.

(** C10, witness: no token, the unknown name "LS" (the table has "ls"),
    and a failing sys_fork. *)
Lemma sentinels_coincide_witness :
  let line := line_of (list_ascii_of_string "LS") in
  let w := start_world [] [] [ForkError EAGAIN] [] in
  fst (shell_execute strerror_text example_main line (argv_of [] []) w)
  = Ret (-1)%Z
  /\ fst (shell_execute strerror_text example_main line (argv_of [0] []) w)
     = Ret (-1)%Z
  /\ fst (shell_fork strerror_text (example_main Entry.main_ls) 1 ["ls"] w)
     = Ret (-1)%Z.
Proof.
  intros line w.
  destruct (sentinels_coincide strerror_text example_main line [] [] 0 []
              (list_ascii_of_string "LS") (example_main Entry.main_ls)
              1 ["ls"] EAGAIN [] w) as (H1 & H2 & H3 & _).
  - reflexivity.
  - vm_compute. discriminate.
  - apply (bool_decide_unpack _). vm_compute. exact I.
  - reflexivity.
  - auto.
Defined.

(** C4.  Where the fault reports go (standard output, standard error):
    shell_readline reports a failing malloc and a failing realloc on
    standard error, and shell_fork a failing sys_fork; shell_splitline
    reports a failing malloc and a failing realloc of the token array on
    standard output and writes nothing to standard error. *)
Theorem fault_report_streams :
  let enomem := "Cannot allocate memory" +:+ nl in
  streams (shell_readline strerror_text
             (start_world (typed ("ls" +:+ nl)) [false] [] []))
  = ("", "malloc: " +:+ enomem)
  /\ streams (shell_readline strerror_text
                (start_world ((RdByte <$> long_line) ++ [RdByte NL])
                             [true; false] [] []))
     = ("", "realloc: " +:+ enomem)
  /\ streams (shell_fork strerror_text (example_main Entry.main_ls) 1
                ["ls"] (start_world [] [] [ForkError EAGAIN] []))
     = ("", "fork: Resource temporarily unavailable" +:+ nl)
  /\ streams (shell_splitline strerror_text
                (line_of (list_ascii_of_string "ls"))
                (start_world [] [false] [] []))
     = ("malloc: " +:+ enomem, "")
  /\ streams (shell_splitline strerror_text (line_of many_words)
                (start_world [] [true; false] [] []))
     = ("realloc: " +:+ enomem, "").
Proof. vm_compute. repeat split; reflexivity. Qed.

(** ** Worked examples of the further properties *)

Lemma word_bytes (t : list ascii) :
  (match t with [] => false | _ => true end
   && forallb (fun c => negb (spec_delimiter c)) t
   && forallb (fun c => negb (Ascii.eqb c NUL)) t)%bool = true ->
  word t.
Proof.
  intros H. apply andb_true_iff in H as [H Hn].
  apply andb_true_iff in H as [Hne Hd].
  split; [|split].
  - destruct t; [discriminate Hne|discriminate].
  - apply Forall_forall. intros c Hc.
    rewrite forallb_forall in Hd. apply list_elem_of_In in Hc.
    specialize (Hd c Hc). destruct (spec_delimiter c); auto; discriminate.
  - apply no_NUL_bytes. exact Hn.
Qed.

(** X1, witness: "help" in the child prints its list and the process
    ends with exit code 0. *)
Lemma shell_fork_child_witness :
  fst (shell_fork strerror_text main_help 1%Z ["help"]
         (start_world [] [] [ForkChild] []))
  = Exited 0%Z.
Proof.
  destruct (shell_fork_child strerror_text main_help 1%Z ["help"] []
              (start_world [] [] [ForkChild] []) eq_refl) as [H _].
  rewrite (H 0%Z (snd (main_help 1%Z ["help"]
                         (set_fork [] (start_world [] [] [ForkChild] []))))
             eq_refl).
  reflexivity.
Defined.

(** X2, witness: sys_waitpid fails with ECHILD (10) at the first call. *)
Lemma shell_fork_wait_error_witness :
  fst (shell_fork strerror_text (example_main Entry.main_ls) 1 ["ls"]
         (start_world [] [] [ForkParent 42] [WaitError 10]))
  = Ret 0%Z.
Proof.
  rewrite (shell_fork_wait_error strerror_text (example_main Entry.main_ls)
             1 ["ls"] 42 10 [] []
             (start_world [] [] [ForkParent 42] [WaitError 10])).
  - reflexivity.
  - reflexivity.
  - lia.
  - reflexivity.
Defined.

(** X3, witness: sys_fork fails with EAGAIN. *)
Lemma shell_fork_failure_witness :
  let w := start_world [] [] [ForkError EAGAIN] [] in
  streams (shell_fork strerror_text (example_main Entry.main_ls) 1 ["ls"] w)
  = ("", "fork: Resource temporarily unavailable" +:+ nl)
  /\ shell_fork strerror_text main_help 1 ["ls"] w
     = shell_fork strerror_text (example_main Entry.main_ls) 1 ["ls"] w.
Proof.
  intros w.
  destruct (shell_fork_failure strerror_text (example_main Entry.main_ls)
              main_help 1 ["ls"] EAGAIN [] w eq_refl) as [H1 H2].
  split; [rewrite H1; reflexivity|exact H2].
Defined.

(** X6, witness: "cd /tmp" is run by main_cd directly, "ls" through
    shell_fork. *)
Lemma shell_execute_dispatch_witness :
  let w := start_world [] [] [ForkParent 42] [] in
  shell_execute strerror_text example_main cd_line (argv_of [0; 3] []) w
  = example_main Entry.main_cd 2%Z ["cd"; "/tmp"] w.
Proof.
  intros w.
  destruct (shell_execute_dispatch strerror_text example_main cd_line 0 [3]
              [] (list_ascii_of_string "cd") [list_ascii_of_string "/tmp"]
              cd_entry w) as [H _].
  - repeat constructor.
  - vm_compute. discriminate.
  - reflexivity.
  - exact (H eq_refl).
Defined.

(** X7, witness: the round that reads [ls /]. *)
Lemma shell_loop_body_line_witness :
  let w := start_world (typed ("ls /" +:+ nl)) [] [] [] in
  exists ps rest' line' w1,
    shell_loop_body strerror_text example_main w
    = shell_execute strerror_text example_main line' (argv_of ps rest') w1
    /\ arg_strings line' (argv_of ps rest') = Some ["ls"; "/"]
    /\ w_stdout w1 = "/$ "
    /\ w_stdin w1 = [].
Proof.
  intros w.
  destruct (shell_loop_body_line strerror_text example_main (typed "ls /")
              [] w) as (ps & rest' & line' & w1 & E & Ha & Ho & Hi & _).
  - reflexivity.
  - apply line_event_bytes. reflexivity.
  - apply no_NUL_bytes. reflexivity.
  - constructor.
  - vm_compute. discriminate.
  - exists ps, rest', line', w1. auto.
Defined.

(** X8, witness: a line of a space and a tab. *)
Lemma shell_loop_body_blank_witness :
  let w :=
    start_world (RdByte " " :: RdByte "009" :: typed (nl +:+ "ls"))
                [] [ForkParent 42] [] in
  exists w1,
    shell_loop_body strerror_text example_main w = (Ret (-1)%Z, w1)
    /\ w_stdout w1 = "/$ "
    /\ w_stdin w1 = typed "ls"
    /\ w_fork w1 = [ForkParent 42].
Proof.
  intros w.
  destruct (shell_loop_body_blank strerror_text example_main
              [" "%char; "009"%char] (typed "ls") w)
    as (w1 & E & Ho & Hi & _ & Hf & _).
  - reflexivity.
  - repeat constructor; discriminate.
  - constructor.
  - vm_compute. discriminate.
  - exists w1. auto.
Defined.

(** X9, witness: the round that reads [frobnicate -x]. *)
Lemma shell_loop_body_unknown_witness :
  let w := start_world (typed ("frobnicate -x" +:+ nl)) [] [ForkParent 42]
                       [] in
  exists w1,
    shell_loop_body strerror_text example_main w = (Ret (-1)%Z, w1)
    /\ w_stdout w1 = "/$ frobnicate: command not found" +:+ nl
    /\ w_fork w1 = [ForkParent 42].
Proof.
  intros w.
  destruct (shell_loop_body_unknown strerror_text example_main
              (typed "frobnicate -x") []
              (list_ascii_of_string "frobnicate")
              [list_ascii_of_string "-x"] w)
    as (w1 & E & Ho & _ & _ & Hf & _).
  - reflexivity.
  - apply line_event_bytes. reflexivity.
  - apply no_NUL_bytes. reflexivity.
  - constructor.
  - vm_compute. discriminate.
  - reflexivity.
  - apply (bool_decide_unpack _). vm_compute. exact I.
  - exists w1. auto.
Defined.

(** X10, witness: the input ends after [ls] without a newline; and a read
    fails with EIO (5) after [ls]. *)
Lemma shell_readline_no_line_witness :
  (exists w',
     shell_readline strerror_text (start_world (typed "ls") [] [] [])
     = (Ret None, w') /\ w_stdin w' = [])
  /\ (exists w',
        shell_readline strerror_text
          (start_world (typed "ls" ++ RdError 5 :: typed "x") [] [] [])
        = (Ret None, w') /\ w_stdin w' = typed "x").
Proof.
  split.
  - destruct (shell_readline_no_line strerror_text (typed "ls") []
                (start_world (typed "ls") [] [] []))
      as (w' & E & Hi & _).
    + reflexivity.
    + apply line_event_bytes. reflexivity.
    + constructor.
    + vm_compute. discriminate.
    + exact I.
    + exists w'. auto.
  - destruct (shell_readline_no_line strerror_text (typed "ls")
                (RdError 5 :: typed "x")
                (start_world (typed "ls" ++ RdError 5 :: typed "x") [] [] []))
      as (w' & E & Hi & _).
    + reflexivity.
    + apply line_event_bytes. reflexivity.
    + constructor.
    + vm_compute. discriminate.
    + discriminate.
    + exists w'. auto.
Defined.

(** X11, witness: a line of 1024 letters and then [tail]; the second
    allocation fails. *)
Lemma shell_readline_growth_failure_witness :
  let w :=
    start_world ((RdByte <$> replicate 1023 "a"%char)
                 ++ RdByte "a" :: typed ("tail" +:+ nl))
                [true; false] [] [] in
  exists w',
    shell_readline strerror_text w = (Ret None, w')
    /\ w_stdin w' = typed ("tail" +:+ nl)
    /\ w_stderr w' = "realloc: Cannot allocate memory" +:+ nl
    /\ w_stdout w' = "".
Proof.
  intros w.
  destruct (shell_readline_growth_failure strerror_text
              (RdByte <$> replicate 1023 "a"%char) (typed ("tail" +:+ nl))
              "a"%char [] w)
    as (w' & E & Hi & He & Ho & _).
  - reflexivity.
  - reflexivity.
  - apply line_event_bytes. vm_compute. reflexivity.
  - vm_compute. reflexivity.
  - discriminate.
  - exists w'. auto.
Defined.

(** X12, witness: the first allocation fails while [ls] waits in the
    input. *)
Lemma shell_loop_body_no_buffer_witness :
  let w := start_world (typed ("ls" +:+ nl)) [false] [] [] in
  exists w1,
    shell_loop_body strerror_text example_main w = (Ret 0%Z, w1)
    /\ w_stdin w1 = typed ("ls" +:+ nl)
    /\ w_stdout w1 = "/$ "
    /\ w_stderr w1 = "malloc: Cannot allocate memory" +:+ nl.
Proof.
  intros w.
  destruct (shell_loop_body_no_buffer strerror_text example_main [] w)
    as (w1 & E & Hi & Ho & He & _).
  - reflexivity.
  - exists w1. auto.
Defined.

(** X13, witness: [exit] is read but the token array cannot be
    allocated. *)
Lemma shell_loop_body_no_tokens_witness :
  let w := start_world (typed ("exit" +:+ nl)) [true; false] [] [] in
  exists w1,
    shell_loop_body strerror_text example_main w = (Ret 0%Z, w1)
    /\ w_stdin w1 = []
    /\ w_stdout w1 = "/$ malloc: Cannot allocate memory" +:+ nl
    /\ w_stderr w1 = "".
Proof.
  intros w.
  destruct (shell_loop_body_no_tokens strerror_text example_main
              (typed "exit") [] [] w)
    as (w1 & E & Hi & Ho & He & _).
  - reflexivity.
  - reflexivity.
  - apply line_event_bytes. reflexivity.
  - vm_compute. lia.
  - exists w1. auto.
Defined.

(** X14, witness: the words "cp", "a.txt" and "b.txt". *)
Lemma shell_splitline_join_witness :
  let ts := [list_ascii_of_string "cp"; list_ascii_of_string "a.txt";
             list_ascii_of_string "b.txt"] in
  exists ps rest line' w',
    shell_splitline strerror_text (line_of (join_words ts))
                    (start_world [] [] [] [])
    = (Ret (Some (argv_of ps rest), line'), w')
    /\ arg_strings line' (argv_of ps rest) = Some ["cp"; "a.txt"; "b.txt"]
    /\ length ps = 3.
Proof.
  intros ts.
  apply (shell_splitline_join strerror_text ts [] (start_world [] [] [] [])).
  - do 3 (constructor; [apply word_bytes; reflexivity|]). constructor.
  - constructor.
  - vm_compute. discriminate.
Defined.

(** X15, witness: the line [exit], a NUL byte and [xyz]. *)
Lemma embedded_NUL_truncates_witness :
  let a := list_ascii_of_string "exit" in
  let b := list_ascii_of_string "xyz" in
  let w := start_world ((RdByte <$> (a ++ NUL :: b)) ++ [RdByte NL])
                       [] [] [] in
  exists buffer w1 ps rest' line' w2,
    shell_readline strerror_text w = (Ret (Some buffer), w1)
    /\ w_stdin w1 = []
    /\ str_at buffer 0 = Some a
    /\ shell_splitline strerror_text buffer w1
       = (Ret (Some (argv_of ps rest'), line'), w2)
    /\ arg_strings line' (argv_of ps rest') = Some ["exit"].
Proof.
  intros a b w.
  apply (embedded_NUL_truncates strerror_text a b [] w).
  - reflexivity.
  - repeat constructor; discriminate.
  - repeat constructor; discriminate.
  - constructor.
  - vm_compute. discriminate.
Defined.

(** X16, witness: the round that reads [cd /tmp] runs main_cd in the
    shell's process. *)
Lemma shell_loop_body_command_witness :
  let w := start_world (typed ("cd /tmp" +:+ nl)) [] [ForkParent 42] [] in
  exists w1,
    shell_loop_body strerror_text example_main w
    = example_main Entry.main_cd 2%Z ["cd"; "/tmp"] w1
    /\ w_stdout w1 = "/$ "
    /\ w_fork w1 = [ForkParent 42].
Proof.
  intros w.
  destruct (shell_loop_body_command strerror_text example_main
              (typed "cd /tmp") [] (list_ascii_of_string "cd")
              [list_ascii_of_string "/tmp"] cd_entry w)
    as (w1 & E & Ho & _ & _ & Hf & _).
  - reflexivity.
  - apply line_event_bytes. reflexivity.
  - apply no_NUL_bytes. reflexivity.
  - constructor.
  - vm_compute. discriminate.
  - reflexivity.
  - reflexivity.
  - exists w1. split; [exact E|]. auto.
Defined.

(** X17, witness: the tokens of [ls   -a<TAB>/]. *)
Lemma shell_splitline_in_bounds_witness :
  exists ps rest line' w',
    shell_splitline strerror_text (line_of ls_line)
                    (start_world [] [] [] [])
    = (Ret (Some (argv_of ps rest), line'), w')
    /\ length line' = length (line_of ls_line)
    /\ Forall (fun p => exists t, str_at line' p = Some t
                                  /\ p + length t < length line') ps.
Proof.
  apply (shell_splitline_in_bounds strerror_text ls_line []
           (start_world [] [] [] [])).
  - apply no_NUL_bytes. reflexivity.
  - constructor.
  - vm_compute. discriminate.
Defined.

(** X18, witness: "help" in the child ends the process with code 0 after
    one prompt. *)
Lemma forked_child_leaves_loop_witness :
  let w := start_world (typed ("help" +:+ nl +:+ "ls" +:+ nl)) []
                       [ForkChild] [] in
  fst (shell_loop_from strerror_text example_main 5 1 w) = Exited 0%Z.
Proof.
  intros w.
  destruct (forked_child_leaves_loop strerror_text example_main
              (typed "help") (typed ("ls" +:+ nl))
              (list_ascii_of_string "help") [] help_entry [] w)
    as (w1 & _ & _ & _ & H).
  - reflexivity.
  - apply line_event_bytes. reflexivity.
  - apply no_NUL_bytes. reflexivity.
  - constructor.
  - vm_compute. discriminate.
  - reflexivity.
  - reflexivity.
  - discriminate.
  - reflexivity.
  - rewrite (H 0%Z _ (main_help_gen 1%Z ["help"] w1) 4 1%Z);
      [reflexivity|discriminate].
Defined.

(** X19, witness: the round that reads [ls /] when the child is stopped
    once and then exits with code 2. *)
Lemma forked_command_round_witness :
  let w := start_world (typed ("ls /" +:+ nl)) [] [ForkParent 42]
             [WaitStatus (wstatus (ChildStopped 19));
              WaitStatus (wstatus (ChildExited 2))] in
  exists w1,
    shell_loop_body strerror_text example_main w = (Ret 2%Z, w1)
    /\ w_stdout w1 = "/$ "
    /\ w_fork w1 = [] /\ w_wait w1 = []
    /\ w_env w1 = w_env w /\ w_cwd w1 = w_cwd w.
Proof.
  intros w.
  destruct (forked_command_round strerror_text example_main
              (typed "ls /") [] (list_ascii_of_string "ls")
              [list_ascii_of_string "/"] ls_entry 42 []
              [wstatus (ChildStopped 19)] (wstatus (ChildExited 2)) [] w)
    as (w1 & E & Ho & _ & _ & Hf & Hw & Hv & Hc & _).
  - reflexivity.
  - apply line_event_bytes. reflexivity.
  - apply no_NUL_bytes. reflexivity.
  - constructor.
  - vm_compute. discriminate.
  - reflexivity.
  - reflexivity.
  - discriminate.
  - reflexivity.
  - lia.
  - reflexivity.
  - repeat constructor.
  - reflexivity.
  - exists w1. split; [exact E|]. auto.
Defined.

(** X20, witness: a line of 2500 bytes read after one interrupted read is
    returned in a block of 3072 cells. *)
Lemma shell_readline_block_witness :
  let evs := RdError EINTR :: (RdByte <$> long_line) in
  exists w',
    shell_readline strerror_text
      (start_world (evs ++ [RdByte NL]) [] [] [])
    = (Ret (Some ((Some <$> long_line)
                  ++ Some NUL :: replicate 571 None)), w').
Proof.
  intros evs.
  apply (shell_readline_block strerror_text evs []
           (start_world (evs ++ [RdByte NL]) [] [] [])).
  - reflexivity.
  - constructor; [reflexivity|].
    apply line_event_bytes. vm_compute. reflexivity.
  - constructor.
  - vm_compute. discriminate.
Defined.
